(** * memecoinvote: the token list page ([src/app/page.tsx])

    A shallow embedding of the [Home] component: the catalog fetch
    ([fetchJupiterTokens]), the Firestore snapshot callback that joins the
    catalog with the vote tallies ([combinedTokens]), the vote handlers
    ([handleLike], [handleDislike]) and the derived, filtered and sorted
    list ([filteredAndSortedTokens]).

    Conventions.
    - A JavaScript [number] holding a vote count is an integer ([Z]).
    - A string is a [string]; the search only compares code units, so the
      width of a code unit plays no role.
    - A Firestore document is a finite map from field names to numbers:
      [doc.data() as FirebaseData] is an unchecked cast, so a field may be
      missing and further fields may be present.
    - [async] code is written in a small free monad [Prog] whose [AwaitFetch]
      node is the suspension point of [await fetch(..)]; the event loop
      ([step]) resumes suspended callbacks in any order.  The second await
      of [fetchJupiterTokens], [await response.json()], touches no state of
      the component and is folded into the first.
    - Calls of [console] are left out: they change nothing the page reads.
    - The built-ins [includes], [sort] and [toLowerCase] are modelled by
      what the language prescribes for them: substring search on code
      units, a stable sort driven by the comparator, and, for
      [toLowerCase], a parameter of the statements (with the ASCII
      lower-casing as the instance that is run). *)

From stdpp Require Import gmap strings list fin_maps sorting.
From Stdlib Require Import ZArith Lia Ascii.

Local Open Scope Z_scope.

(** ** Data model (interfaces [JupiterToken], [FirebaseData], [Token]) *)

Record JupiterToken := mkJupiterToken {
  address : string;
  name : string;
  symbol : string;
  decimals : Z;
  logoURI : string;
  tags : list string;
  daily_volume : Z;
  freeze_authority : option string;
  mint_authority : option string
}.

(** A tally document as stored: field name to number.  The interface
    [FirebaseData] names the two fields the page reads. *)
Abbreviation FirebaseData := (gmap string Z).

(** [Token extends JupiterToken] with the two counts. *)
Record Token := mkToken {
  jupiter : JupiterToken;
  likes : Z;
  dislikes : Z
}.

Definition token_address (t : Token) : string := address (jupiter t).
Definition token_name (t : Token) : string := name (jupiter t).

(** ** JavaScript operators used by the join *)

(** [x || 0] on a number: [0] is falsy, every other integer is truthy. *)
Definition or_zero (x : Z) : Z := if x =? 0 then 0 else x.

(** [v || 0] where [v] may be [undefined]. *)
Definition opt_or_zero (v : option Z) : Z :=
  match v with
  | Some x => or_zero x
  | None => 0
  end.

(** [firebaseData[a]?.f]: [undefined] when the entry is missing, else the
    field (itself [undefined] when the document lacks it). *)
Definition opt_chain (firebaseData : gmap string FirebaseData)
    (a f : string) : option Z :=
  match firebaseData !! a with
  | Some d => d !! f
  | None => None
  end.

(** ** The network as the page sees it *)

Inductive Body :=
| MalformedJson
| JsonData (data : list JupiterToken).

Record Response := mkResponse { status : nat; body : Body }.

(** [response.ok]: the status is in the range 200-299. *)
Definition ok (r : Response) : bool :=
  ((200 <=? status r) && (status r <=? 299))%nat.

(** What [fetch(url)] settles to: a rejection or a response. *)
Inductive FetchOutcome :=
| Rejected
| Responded (r : Response).

(** What [setDoc(..)] settles to: the store took the write or refused it. *)
Inductive WriteOutcome :=
| Acknowledged
| Refused.

Inductive Exn :=
| NetworkFailure
| HttpError (st : nat)
| SyntaxError
| WriteRefused.

(** ** Writes sent to Firestore *)

(** A field of the data passed to [setDoc]: a plain number or the
    [increment(n)] sentinel. *)
Inductive FieldValue :=
| Plain (z : Z)
| increment (n : Z).

(** One call [setDoc(doc(db, collection, id), data, { merge })]. *)
Record SetDocCall := mkSetDoc {
  sd_collection : string;
  sd_id : string;
  sd_data : list (string * FieldValue);
  sd_merge : bool
}.

(** ** Asynchronous programs *)

Inductive Prog (A : Type) : Type :=
| Ret (a : A)
| Throw (e : Exn)
| AwaitFetch (url : string) (k : FetchOutcome → Prog A)
| SetTokens (ts : list Token) (k : Prog A)
| SetSearchTerm (s : string) (k : Prog A)
| SetIsLoading (b : bool) (k : Prog A)
| AwaitSetDoc (w : SetDocCall) (k : WriteOutcome → Prog A).

Arguments Ret {A} a.
Arguments Throw {A} e.
Arguments AwaitFetch {A} url k.
Arguments SetTokens {A} ts k.
Arguments SetSearchTerm {A} s k.
Arguments SetIsLoading {A} b k.
Arguments AwaitSetDoc {A} w k.

Fixpoint bind {A B : Type} (m : Prog A) (f : A → Prog B) : Prog B :=
  match m with
  | Ret a => f a
  | Throw e => Throw e
  | AwaitFetch url k => AwaitFetch url (λ o, bind (k o) f)
  | SetTokens ts k => SetTokens ts (bind k f)
  | SetSearchTerm s k => SetSearchTerm s (bind k f)
  | SetIsLoading b k => SetIsLoading b (bind k f)
  | AwaitSetDoc w k => AwaitSetDoc w (λ r, bind (k r) f)
  end.

(** [try { m } catch (error) { h error }] *)
Fixpoint try_catch {A : Type} (m : Prog A) (h : Exn → Prog A) : Prog A :=
  match m with
  | Ret a => Ret a
  | Throw e => h e
  | AwaitFetch url k => AwaitFetch url (λ o, try_catch (k o) h)
  | SetTokens ts k => SetTokens ts (try_catch k h)
  | SetSearchTerm s k => SetSearchTerm s (try_catch k h)
  | SetIsLoading b k => SetIsLoading b (try_catch k h)
  | AwaitSetDoc w k => AwaitSetDoc w (λ r, try_catch (k r) h)
  end.

Global Instance Prog_ret : MRet Prog := @Ret.
Global Instance Prog_bind : MBind Prog := λ A B f m, bind m f.

Definition fetch (url : string) : Prog Response :=
  AwaitFetch url (λ o,
    match o with
    | Rejected => Throw NetworkFailure
    | Responded r => Ret r
    end).

(** [response.json()] typed as [JupiterToken[]]. *)
Definition json (r : Response) : Prog (list JupiterToken) :=
  match body r with
  | MalformedJson => Throw SyntaxError
  | JsonData data => Ret data
  end.

Definition setTokens (ts : list Token) : Prog unit := SetTokens ts (Ret tt).
Definition setSearchTerm (s : string) : Prog unit := SetSearchTerm s (Ret tt).
Definition setIsLoading (b : bool) : Prog unit := SetIsLoading b (Ret tt).
(** What [await setDoc(..)] comes back with. *)
Definition setDoc_settled (r : WriteOutcome) : Prog unit :=
  match r with
  | Acknowledged => Ret tt
  | Refused => Throw WriteRefused
  end.

Definition setDoc (collection id : string) (data : list (string * FieldValue))
    (merge : bool) : Prog unit :=
  AwaitSetDoc (mkSetDoc collection id data merge) setDoc_settled.

(** ** The component *)

Definition catalog_url : string :=
  "https://tokens.jup.ag/tokens?tags=lst,community".

(** [fetchJupiterTokens] (page.tsx, lines 96-111). *)
Definition fetchJupiterTokens : Prog (list JupiterToken) :=
  try_catch
    (response ← fetch catalog_url;
     if negb (ok response) then Throw (HttpError (status response))
     else
       data ← json response;
       mret data)
    (λ _, Ret []).

(** The object built by [snapshot.docs.forEach] (lines 118-121): later
    documents overwrite earlier ones with the same id. *)
Definition collect_docs (docs : list (string * FirebaseData))
    : gmap string FirebaseData :=
  foldl (λ acc d, <[d.1 := d.2]> acc) ∅ docs.

(** [combinedTokens] (lines 130-134). *)
Definition combinedTokens (firebaseData : gmap string FirebaseData)
    (jupiterTokens : list JupiterToken) : list Token :=
  map (λ jToken,
         {| jupiter := jToken;
            likes := opt_or_zero (opt_chain firebaseData (address jToken) "likes");
            dislikes := opt_or_zero (opt_chain firebaseData (address jToken) "dislikes") |})
      jupiterTokens.

(** The snapshot callback of [onSnapshot] (lines 115-142). *)
Definition onSnapshot_next (docs : list (string * FirebaseData)) : Prog unit :=
  try_catch
    (let firebaseData := collect_docs docs in
     jupiterTokens ← fetchJupiterTokens;
     setTokens (combinedTokens firebaseData jupiterTokens);;
     setIsLoading false)
    (λ _, setIsLoading false).

(** The error callback of [onSnapshot] (lines 143-146). *)
Definition onSnapshot_error : Prog unit := setIsLoading false.

(** [handleLike] and [handleDislike] (lines 153-165). *)
Definition handleLike (addr : string) : Prog unit :=
  setDoc "coins" addr [("likes", increment 1)] true.

Definition handleDislike (addr : string) : Prog unit :=
  setDoc "coins" addr [("dislikes", increment 1)] true.

(** ** The event loop *)

(** The state of [Home] ([useState], lines 91-93) together with what the
    page has asked of the outside: the [fetch] requests issued, the
    [setDoc] calls sent, the callbacks suspended at an [await fetch], the
    handlers suspended at an [await setDoc] and the exceptions that no
    [catch] took. *)
Record World := mkWorld {
  tokens : list Token;
  searchTerm : string;
  isLoading : bool;
  fetches : list string;
  outbox : list SetDocCall;
  suspended : list (FetchOutcome → Prog unit);
  writing : list (WriteOutcome → Prog unit);
  escaped : list Exn
}.

(** The state at mount: [useState([])], [useState('')], [useState(true)]. *)
Definition init : World :=
  {| tokens := []; searchTerm := ""; isLoading := true;
     fetches := []; outbox := []; suspended := []; writing := [];
     escaped := [] |}.

(** Run a program up to its next suspension point. *)
Fixpoint exec (p : Prog unit) (w : World) : World :=
  match p with
  | Ret _ => w
  | Throw e =>
      mkWorld (tokens w) (searchTerm w) (isLoading w) (fetches w) (outbox w)
              (suspended w) (writing w) (escaped w ++ [e])
  | AwaitFetch url k =>
      mkWorld (tokens w) (searchTerm w) (isLoading w) (fetches w ++ [url])
              (outbox w) (suspended w ++ [k]) (writing w) (escaped w)
  | SetTokens ts k =>
      exec k (mkWorld ts (searchTerm w) (isLoading w) (fetches w) (outbox w)
                      (suspended w) (writing w) (escaped w))
  | SetSearchTerm s k =>
      exec k (mkWorld (tokens w) s (isLoading w) (fetches w) (outbox w)
                      (suspended w) (writing w) (escaped w))
  | SetIsLoading b k =>
      exec k (mkWorld (tokens w) (searchTerm w) b (fetches w) (outbox w)
                      (suspended w) (writing w) (escaped w))
  | AwaitSetDoc c k =>
      mkWorld (tokens w) (searchTerm w) (isLoading w) (fetches w)
              (outbox w ++ [c]) (suspended w) (writing w ++ [k]) (escaped w)
  end.

Inductive Event :=
| Snapshot (docs : list (string * FirebaseData))
| SnapshotError
| FetchSettled (i : nat) (o : FetchOutcome)
| Like (addr : string)
| Dislike (addr : string)
| WriteSettled (i : nat) (r : WriteOutcome)
| Search (s : string).

(** Take the [i]-th suspended callback off the list. *)
Definition resume (i : nat) (o : FetchOutcome) (w : World) : World :=
  match suspended w !! i with
  | Some k =>
      exec (k o)
           (mkWorld (tokens w) (searchTerm w) (isLoading w) (fetches w)
                    (outbox w) (delete i (suspended w)) (writing w)
                    (escaped w))
  | None => w
  end.

(** Take the [i]-th suspended vote handler off the list. *)
Definition resume_write (i : nat) (r : WriteOutcome) (w : World) : World :=
  match writing w !! i with
  | Some k =>
      exec (k r)
           (mkWorld (tokens w) (searchTerm w) (isLoading w) (fetches w)
                    (outbox w) (suspended w) (delete i (writing w))
                    (escaped w))
  | None => w
  end.

Definition step (w : World) (e : Event) : World :=
  match e with
  | Snapshot docs => exec (onSnapshot_next docs) w
  | SnapshotError => exec onSnapshot_error w
  | FetchSettled i o => resume i o w
  | Like addr => exec (handleLike addr) w
  | Dislike addr => exec (handleDislike addr) w
  | WriteSettled i r => resume_write i r w
  | Search s => exec (setSearchTerm s) w
  end.

Definition run (w : World) (es : list Event) : World := foldl step w es.

Definition is_snapshot (e : Event) : bool :=
  match e with Snapshot _ => true | _ => false end.

Definition is_settled (e : Event) : bool :=
  match e with FetchSettled _ _ => true | _ => false end.

Definition is_refusal (e : Event) : bool :=
  match e with WriteSettled _ Refused => true | _ => false end.


(** A fetch that failed: rejected, a status outside 200-299, or a body
    that is not JSON. *)
Definition failed (o : FetchOutcome) : bool :=
  match o with
  | Rejected => true
  | Responded r =>
      negb (ok r) || match body r with MalformedJson => true | JsonData _ => false end
  end.

(** The rest of the snapshot callback once its fetch has settled. *)
Definition after_fetch (docs : list (string * FirebaseData))
    : FetchOutcome → Prog unit :=
  match onSnapshot_next docs with
  | AwaitFetch _ k => k
  | _ => λ _, Ret tt
  end.

(** The catalog that [fetchJupiterTokens] hands to its caller. *)
Definition catalog_of (o : FetchOutcome) : list JupiterToken :=
  match o with
  | Rejected => []
  | Responded r =>
      if ok r then match body r with MalformedJson => [] | JsonData d => d end
      else []
  end.

(** The program left once a pending [fetch] has settled. *)
Definition settle {A : Type} (p : Prog A) (o : FetchOutcome) : Prog A :=
  match p with
  | AwaitFetch _ k => k o
  | _ => p
  end.

(** Every suspended callback is the tail of a snapshot callback, every
    suspended handler the tail of a vote handler. *)
Definition callbacks_known (w : World) : Prop :=
  Forall (λ k, ∃ docs, k = after_fetch docs) (suspended w) ∧
  Forall (λ k, k = setDoc_settled) (writing w).

(** ** The derived list ([filteredAndSortedTokens], lines 167-172) *)

(** [t.startsWith(s)], code unit by code unit. *)
Fixpoint starts_with (s t : string) : bool :=
  match s, t with
  | EmptyString, _ => true
  | String _ _, EmptyString => false
  | String a s', String b t' => bool_decide (a = b) && starts_with s' t'
  end.

(** [t.includes(s)]: [s] starts at some position of [t]. *)
Fixpoint includes (t s : string) : bool :=
  starts_with s t ||
  match t with
  | EmptyString => false
  | String _ t' => includes t' s
  end.

(** [s] occurs in [t] as a contiguous run of code units. *)
Definition substring_of (s t : string) : Prop :=
  ∃ pre post, t = pre +:+ s +:+ post.

(** The predicate passed to [filter]; [toLowerCase] is the built-in
    [String.prototype.toLowerCase]. *)
Definition matches (toLowerCase : string → string) (searchTerm : string)
    (token : Token) : bool :=
  includes (toLowerCase (token_name token)) (toLowerCase searchTerm)
  || includes (toLowerCase (token_address token)) (toLowerCase searchTerm).

(** The comparator [(a, b) => b.likes - a.likes]. *)
Definition by_likes (a b : Token) : Z := likes b - likes a.

(** [Array.prototype.sort(comparefn)] is a stable sort: [x] moves behind
    [y] only when [comparefn(x, y) > 0]. *)
Fixpoint sort_insert {A : Type} (comparefn : A → A → Z) (x : A) (l : list A)
    : list A :=
  match l with
  | [] => [x]
  | y :: l' =>
      if 0 <? comparefn x y then y :: sort_insert comparefn x l' else x :: l
  end.

Definition sort {A : Type} (comparefn : A → A → Z) (l : list A) : list A :=
  foldr (sort_insert comparefn) [] l.

Definition filteredAndSortedTokens (toLowerCase : string → string)
    (tokens : list Token) (searchTerm : string) : list Token :=
  sort by_likes (List.filter (matches toLowerCase searchTerm) tokens).

(** What the page renders from a state of the component. *)
Definition view (toLowerCase : string → string) (w : World) : list Token :=
  filteredAndSortedTokens toLowerCase (tokens w) (searchTerm w).

(** The entries of [l] whose like count is [n], in the order of [l]. *)
Definition with_likes (n : Z) (l : list Token) : list Token :=
  List.filter (λ t, likes t =? n) l.

(** Larger like counts first. *)
Definition likes_ge (a b : Token) : Prop := likes b <= likes a.

(** Lower-casing of the letters A-Z, every other code unit kept: the
    built-in restricted to ASCII. *)
Definition lower_ascii (c : ascii) : ascii :=
  let n := Ascii.N_of_ascii c in
  if ((65 <=? n) && (n <=? 90))%N then Ascii.ascii_of_N (n + 32) else c.

Fixpoint ascii_toLowerCase (s : string) : string :=
  match s with
  | EmptyString => EmptyString
  | String c s' => String (lower_ascii c) (ascii_toLowerCase s')
  end.

(** ** The tally store *)

Global Instance FieldValue_eq_dec : EqDecision FieldValue.
Proof. solve_decision. Defined.

Global Instance SetDocCall_eq_dec : EqDecision SetDocCall.
Proof. solve_decision. Defined.

(** The [setDoc] calls a handler sends when run from the initial state. *)
Definition issued (p : Prog unit) : list SetDocCall := outbox (exec p init).

(** Modelled from the spec: how the remote store applies one field of a
    write; the store is the Firestore service and is not part of the
    sources.  A plain value overwrites the field; [increment(n)] adds [n]
    to the stored number, an unset field counting as 0 (an increment of an
    absent field creates it with value [n]). *)
Definition apply_field (d : FirebaseData) (fv : string * FieldValue)
    : FirebaseData :=
  match fv.2 with
  | Plain z => <[fv.1 := z]> d
  | increment n => <[fv.1 := default 0 (d !! fv.1) + n]> d
  end.

(** Modelled from the spec: how the remote store applies one [setDoc] to
    the collection [coins] (document id to document); the store is the
    Firestore service and is not part of the sources.  The document is
    created if absent; with [merge] the fields not named by the write are
    kept, without it the document is replaced.  One call is applied in one
    step. *)
Definition apply_setDoc (store : gmap string FirebaseData) (c : SetDocCall)
    : gmap string FirebaseData :=
  if bool_decide (sd_collection c = "coins") then
    let old := if sd_merge c then default ∅ (store !! sd_id c) else ∅ in
    <[sd_id c := foldl apply_field old (sd_data c)]> store
  else store.

(** Modelled from the spec: writes in flight reach the store one at a
    time, in any order (the service serialises concurrent writers); the
    store is the Firestore service and is not part of the sources. *)
Inductive serves
    : gmap string FirebaseData → list SetDocCall → gmap string FirebaseData → Prop :=
| serves_done store : serves store [] store
| serves_pick store pending i c store' :
    pending !! i = Some c →
    serves (apply_setDoc store c) (delete i pending) store' →
    serves store pending store'.

(** Modelled from the spec: the subscription delivers the whole current
    collection, one entry per document. *)
Definition delivered (store : gmap string FirebaseData)
    : list (string * FirebaseData) :=
  map_to_list store.

(** The number of calls in [pending] that add one to field [f] of the
    document [a]. *)
Definition votes (a f : string) (pending : list SetDocCall) : nat :=
  length (List.filter
            (λ c, bool_decide (c = mkSetDoc "coins" a [(f, increment 1)] true))
            pending).

(** The count the page shows for field [f] of address [a]. *)
Definition shown (store : gmap string FirebaseData) (a f : string) : Z :=
  opt_or_zero (opt_chain store a f).

(** ** Scenarios of the specification *)

Definition token_A : JupiterToken :=
  mkJupiterToken "A" "Foo" "FOO" 9 "" [] 0 None None.

Definition catalog_A : FetchOutcome :=
  Responded (mkResponse 200 (JsonData [token_A])).

Definition http_500 : FetchOutcome :=
  Responded (mkResponse 500 MalformedJson).

(** The catalog is [A]; the empty tally is delivered and joined; the
    visitor likes [A]; the store takes the write and delivers the new
    tally. *)
Definition vote_scenario : list Event :=
  [Snapshot []; FetchSettled 0 catalog_A; Like "A";
   WriteSettled 0 Acknowledged;
   Snapshot [("A", {["likes" := 1; "dislikes" := 0]})]].

(** The catalog was requested at most once. *)
Definition fetched_at_most_once (w : World) : Prop :=
  (length (fetches w) ≤ 1)%nat.

(** A tally with both counts present, and a catalog of two tokens. *)
Definition tally_B : gmap string FirebaseData :=
  {[ "B" := {["likes" := 3; "dislikes" := 2]}; "Z" := {["likes" := 7]} ]}.

Definition token_B : JupiterToken :=
  mkJupiterToken "B" "Bar" "BAR" 6 "" [] 0 None None.

(** Entries for the search and sort scenarios. *)
Definition entry (addr nm : string) (n : Z) : Token :=
  mkToken (mkJupiterToken addr nm "" 0 "" [] 0 None None) n 0.

Definition search_entries : list Token :=
  [entry "A1" "Foo Token" 0; entry "B2" "Bar" 0].

Definition ranked_entries : list Token :=
  [entry "a" "first" 3; entry "b" "second" 3; entry "c" "third" 5;
   entry "d" "fourth" 1].

(** A store in which [A] has four likes and a field the page does not
    read. *)
Definition store_A : gmap string FirebaseData :=
  {[ "A" := {["likes" := 4; "note" := 9]} ]}.

(** ** The row of one token ([TokenLogo], [TokenRow], lines 34-88) *)

(** The first [n] code units of a string, and what is left after them. *)
Fixpoint string_take (n : nat) (s : string) : string :=
  match n, s with
  | S n', String c s' => String c (string_take n' s')
  | _, _ => EmptyString
  end.

Fixpoint string_drop (n : nat) (s : string) : string :=
  match n, s with
  | S n', String _ s' => string_drop n' s'
  | _, _ => s
  end.

(** How [slice] reads an index: a negative one counts from the end, and
    both kinds are clamped to the string. *)
Definition slice_index (len i : Z) : Z :=
  if i <? 0 then Z.max (len + i) 0 else Z.min i len.

(** [s.slice(start, end)]; [end] missing means the length of [s]. *)
Definition slice (s : string) (start : Z) (end_ : option Z) : string :=
  let len := Z.of_nat (String.length s) in
  let from := slice_index len start in
  let to := match end_ with Some e => slice_index len e | None => len end in
  if to <=? from then EmptyString
  else string_take (Z.to_nat (to - from)) (string_drop (Z.to_nat from) s).

(** The text of the link: [{address.slice(0, 4)}...{address.slice(-4)}]
    (line 69). *)
Definition short_address (a : string) : string :=
  slice a 0 (Some 4) +:+ "..." +:+ slice a (-4) None.

Definition placeholder : string := "https://placehold.co/800".

(** What [TokenLogo] renders: an image, with or without an error
    handler. *)
Record Img := mkImg {
  img_src : string;
  img_alt : string;
  img_onError : bool
}.

(** [TokenLogo] (lines 34-53); [error] is its state. *)
Definition TokenLogo (src alt : string) (error : bool) : Img :=
  if error then mkImg placeholder alt false
  else mkImg src alt true.

(** The life of one [TokenLogo]: the image fails to load, or the
    component is rendered again with other properties. *)
Inductive LogoEvent :=
| LoadFailed
| Rerender (src alt : string).

Record LogoState := mkLogo {
  logo_src : string;
  logo_alt : string;
  logo_error : bool
}.

(** [useState(false)] at mount. *)
Definition logo_mount (src alt : string) : LogoState := mkLogo src alt false.

Definition logo_render (st : LogoState) : Img :=
  TokenLogo (logo_src st) (logo_alt st) (logo_error st).

(** [handleError] runs only when the rendered image carries it. *)
Definition logo_step (st : LogoState) (e : LogoEvent) : LogoState :=
  match e with
  | LoadFailed =>
      if img_onError (logo_render st)
      then mkLogo (logo_src st) (logo_alt st) true
      else st
  | Rerender src alt => mkLogo src alt (logo_error st)
  end.

(** What [TokenRow] renders (lines 55-88): the logo's properties, the
    name, the link, the two counts and what the two buttons do. *)
Record Row := mkRow {
  row_logo_src : string;
  row_logo_alt : string;
  row_name : string;
  row_href : string;
  row_link_text : string;
  row_likes : Z;
  row_dislikes : Z;
  row_onLike : Prog unit;
  row_onDislike : Prog unit
}.

Definition TokenRow (token : Token) (onLike onDislike : string → Prog unit)
    : Row :=
  {| row_logo_src := logoURI (jupiter token);
     row_logo_alt := token_name token +:+ " logo";
     row_name := token_name token;
     row_href :=
       "https://birdeye.so/token/" +:+ token_address token +:+ "?chain=solana";
     row_link_text := short_address (token_address token);
     row_likes := likes token;
     row_dislikes := dislikes token;
     row_onLike := onLike (token_address token);
     row_onDislike := onDislike (token_address token) |}.

(** ** What [Home] renders (lines 207-236) *)

(** Either the loading notice, or the table: the rows with their keys and
    whether the notice that nothing matches is shown. *)
Inductive Page :=
| LoadingNotice
| Table (rows : list (string * Row)) (nothing_found : bool).

Definition render (toLowerCase : string → string) (w : World) : Page :=
  if isLoading w then LoadingNotice
  else
    let filteredAndSorted := view toLowerCase w in
    Table (map (λ token, (token_address token,
                          TokenRow token handleLike handleDislike))
               filteredAndSorted)
          (length filteredAndSorted =? 0)%nat.

Definition page_rows (p : Page) : list (string * Row) :=
  match p with
  | LoadingNotice => []
  | Table rows _ => rows
  end.

(** ** Reading a run *)

(** The write a click sends, if the event is a click on a vote button. *)
Definition vote_of (e : Event) : option SetDocCall :=
  match e with
  | Like a => Some (mkSetDoc "coins" a [("likes", increment 1)] true)
  | Dislike a => Some (mkSetDoc "coins" a [("dislikes", increment 1)] true)
  | _ => None
  end.

(** Every suspended callback carries a snapshot delivered during [es]. *)
Definition callbacks_from (es : list Event) (w : World) : Prop :=
  Forall (λ k, ∃ docs, Snapshot docs ∈ es ∧ k = after_fetch docs)
         (suspended w).

(** The token list is empty, or it is the join of a snapshot delivered
    during [es] with the catalog that a fetch settled to later in [es]. *)
Definition joined_from (es : list Event) (ts : list Token) : Prop :=
  ts = [] ∨
  ∃ es1 docs es2 i o es3,
    es = es1 ++ Snapshot docs :: es2 ++ FetchSettled i o :: es3 ∧
    ts = combinedTokens (collect_docs docs) (catalog_of o).

(** No count of likes or dislikes in a delivered snapshot is negative;
    other fields of the documents are free. *)
Definition counts_nonneg (docs : list (string * FirebaseData)) : Prop :=
  Forall (λ d, ∀ v, d.2 !! "likes" = Some v ∨ d.2 !! "dislikes" = Some v →
                    0 <= v) docs.

(** The term typed, if the event is an input to the search box
    ([onChange], line 202). *)
Definition search_of (e : Event) : option string :=
  match e with
  | Search s => Some s
  | _ => None
  end.

Definition is_subscription_error (e : Event) : bool :=
  match e with SnapshotError => true | _ => false end.

(** The reading of "the shown counts change only when a later
    subscription update is delivered": as long as no snapshot is delivered
    after the like of [addr], the token list is the one the page had when
    the button was clicked. *)
Definition changes_only_on_later_delivery (es : list Event) (addr : string)
    (es' : list Event) : Prop :=
  forallb (λ e, negb (is_snapshot e)) es' = true →
  tokens (run init (es ++ Like addr :: es')) = tokens (run init es).

(** One like of [A] is delivered and joined, then five likes are
    delivered and the fetch of that delivery is still pending. *)
Definition pending_delivery : list Event :=
  [Snapshot [("A", {["likes" := 1]})]; FetchSettled 0 catalog_A;
   Snapshot [("A", {["likes" := 5]})]].

(** The write of the vote is taken, and the pending fetch settles. *)
Definition settles_after_vote : list Event :=
  [WriteSettled 0 Acknowledged; FetchSettled 0 catalog_A].

Definition catalog_AB : FetchOutcome :=
  Responded (mkResponse 200 (JsonData [token_A; token_B])).

(** * Properties *)

(** ** Unfolding lemmas *)

Lemma fetchJupiterTokens_settle o :
  settle fetchJupiterTokens o = Ret (catalog_of o).
Proof.
  destruct o as [|[st b]]; [reflexivity|].
  cbn. unfold catalog_of. destruct (ok _); cbn; [|reflexivity].
  destruct b; reflexivity.
Qed.

Lemma onSnapshot_next_unfold docs :
  onSnapshot_next docs = AwaitFetch catalog_url (after_fetch docs).
Proof. reflexivity. Qed.

Lemma exec_after_fetch docs o w :
  exec (after_fetch docs o) w =
  mkWorld (combinedTokens (collect_docs docs) (catalog_of o)) (searchTerm w)
          false (fetches w) (outbox w) (suspended w) (writing w) (escaped w).
Proof.
  destruct o as [|[st b]]; [reflexivity|].
  cbn. unfold catalog_of. destruct (ok _); cbn; [|reflexivity].
  destruct b; reflexivity.
Qed.

Lemma failed_catalog_of o : failed o = true → catalog_of o = [].
Proof.
  destruct o as [|[st b]]; [reflexivity|].
  unfold failed, catalog_of. destruct (ok _); cbn; [|reflexivity].
  destruct b; [reflexivity|discriminate].
Qed.

Lemma step_snapshot w docs :
  step w (Snapshot docs) =
  mkWorld (tokens w) (searchTerm w) (isLoading w) (fetches w ++ [catalog_url])
          (outbox w) (suspended w ++ [after_fetch docs]) (writing w)
          (escaped w).
Proof. reflexivity. Qed.

Lemma run_snoc w es e : run w (es ++ [e]) = step (run w es) e.
Proof. unfold run. by rewrite foldl_app. Qed.

(** ** The suspended callbacks of a reachable state *)

Lemma resume_known w i o :
  callbacks_known w → (i < length (suspended w))%nat →
  ∃ docs, suspended w !! i = Some (after_fetch docs) ∧
    resume i o w =
    mkWorld (combinedTokens (collect_docs docs) (catalog_of o)) (searchTerm w)
            false (fetches w) (outbox w) (delete i (suspended w)) (writing w)
            (escaped w).
Proof.
  intros [Hk _] Hi. destruct (lookup_lt_is_Some_2 _ _ Hi) as [k Hlk].
  destruct (proj1 (Forall_lookup _ _) Hk i k Hlk) as [docs ->].
  exists docs. split; [done|].
  unfold resume. rewrite Hlk. by rewrite exec_after_fetch.
Qed.

Lemma resume_out_of_range w i o :
  (length (suspended w) ≤ i)%nat → resume i o w = w.
Proof.
  intros Hi. unfold resume. by rewrite (lookup_ge_None_2 _ _ Hi).
Qed.

Lemma resume_write_known w i r :
  callbacks_known w → (i < length (writing w))%nat →
  resume_write i r w =
  mkWorld (tokens w) (searchTerm w) (isLoading w) (fetches w) (outbox w)
          (suspended w) (delete i (writing w))
          (escaped w ++ match r with Acknowledged => [] | Refused => [WriteRefused] end).
Proof.
  intros [_ Hk] Hi. destruct (lookup_lt_is_Some_2 _ _ Hi) as [k Hlk].
  rewrite (proj1 (Forall_lookup _ _) Hk i k Hlk) in Hlk.
  unfold resume_write. rewrite Hlk. destruct r; cbn; [|done].
  by rewrite app_nil_r.
Qed.

Lemma resume_write_out_of_range w i r :
  (length (writing w) ≤ i)%nat → resume_write i r w = w.
Proof.
  intros Hi. unfold resume_write. by rewrite (lookup_ge_None_2 _ _ Hi).
Qed.

(** What one event does to a state whose suspended code is known. *)
Lemma step_cases w e :
  callbacks_known w →
  match e with
  | FetchSettled i o =>
      step w e = w ∨
      ∃ docs, step w e =
        mkWorld (combinedTokens (collect_docs docs) (catalog_of o))
                (searchTerm w) false (fetches w) (outbox w)
                (delete i (suspended w)) (writing w) (escaped w)
  | WriteSettled i r =>
      step w e = w ∨
      step w e =
        mkWorld (tokens w) (searchTerm w) (isLoading w) (fetches w) (outbox w)
                (suspended w) (delete i (writing w))
                (escaped w ++
                 match r with Acknowledged => [] | Refused => [WriteRefused] end)
  | _ => True
  end.
Proof.
  intros Hk. destruct e as [docs| |i o|a|a|i r|s]; try done; cbn.
  - destruct (decide (i < length (suspended w))%nat) as [Hi|Hi].
    + right. destruct (resume_known w i o Hk Hi) as (docs & _ & ->). by exists docs.
    + left. apply resume_out_of_range. lia.
  - destruct (decide (i < length (writing w))%nat) as [Hi|Hi].
    + right. by apply resume_write_known.
    + left. apply resume_write_out_of_range. lia.
Qed.

Lemma step_known w e : callbacks_known w → callbacks_known (step w e).
Proof.
  intros Hk. pose proof (step_cases w e Hk) as Hc. destruct Hk as [Hf Hw].
  destruct e as [docs| |i o|a|a|i r|s]; try (by split).
  - rewrite step_snapshot. split; [|exact Hw]. cbn.
    apply Forall_app. split; [exact Hf|]. apply Forall_singleton. by exists docs.
  - destruct Hc as [->|[docs ->]]; [by split|].
    split; [|exact Hw]. cbn. by apply Forall_delete.
  - split; [exact Hf|]. cbn. apply Forall_app. split; [exact Hw|].
    by apply Forall_singleton.
  - split; [exact Hf|]. cbn. apply Forall_app. split; [exact Hw|].
    by apply Forall_singleton.
  - destruct Hc as [->| ->]; [by split|].
    split; [exact Hf|]. cbn. by apply Forall_delete.
Qed.

Lemma step_escaped w e :
  callbacks_known w → is_refusal e = false → escaped (step w e) = escaped w.
Proof.
  intros Hk He. pose proof (step_cases w e Hk) as Hc.
  destruct e as [docs| |i o|a|a|i r|s]; try reflexivity.
  - by destruct Hc as [->|[docs ->]].
  - destruct Hc as [->| ->]; [done|]. destruct r; [|discriminate].
    cbn. by rewrite app_nil_r.
Qed.

Lemma run_known es : callbacks_known (run init es).
Proof.
  induction es as [|e es IH] using rev_ind.
  - split; apply Forall_nil_2.
  - rewrite run_snoc. by apply step_known.
Qed.

(** Until a join completes or the subscription fails, the loading flag
    keeps its value. *)
Lemma step_loading_kept w e :
  callbacks_known w → is_settled e = false → e ≠ SnapshotError →
  isLoading (step w e) = isLoading w.
Proof.
  intros Hk Hs He. pose proof (step_cases w e Hk) as Hc.
  destruct e as [docs| |i o|a|a|i r|s]; try discriminate; try reflexivity.
  - done.
  - by destruct Hc as [->| ->].
Qed.

Lemma step_loading_false w e :
  callbacks_known w → isLoading w = false → isLoading (step w e) = false.
Proof.
  intros Hk Hl. pose proof (step_cases w e Hk) as Hc.
  destruct e as [docs| |i o|a|a|i r|s]; try exact Hl; try reflexivity.
  - by destruct Hc as [->|[docs ->]].
  - by destruct Hc as [->| ->].
Qed.

Lemma step_tokens w e :
  callbacks_known w → is_settled e = false → tokens (step w e) = tokens w.
Proof.
  intros Hk Hs. pose proof (step_cases w e Hk) as Hc.
  destruct e as [docs| |i o|a|a|i r|s]; try discriminate; try reflexivity.
  by destruct Hc as [->| ->].
Qed.

Lemma step_fetches w e :
  callbacks_known w →
  fetches (step w e) =
  fetches w ++ (if is_snapshot e then [catalog_url] else []).
Proof.
  intros Hk. pose proof (step_cases w e Hk) as Hc.
  destruct e as [docs| |i o|a|a|i r|s]; cbn [is_snapshot];
    rewrite ?app_nil_r; try reflexivity.
  - by destruct Hc as [->|[docs ->]].
  - by destruct Hc as [->| ->].
Qed.

Lemma run_fetches es :
  fetches (run init es) =
  replicate (length (List.filter is_snapshot es)) catalog_url.
Proof.
  induction es as [|e es IH] using rev_ind; [reflexivity|].
  rewrite run_snoc, step_fetches by apply run_known.
  rewrite IH, List.filter_app, length_app, replicate_add. cbn.
  by destruct (is_snapshot e).
Qed.

Lemma run_quiet es :
  forallb (λ e, negb (is_snapshot e)) es = true →
  suspended (run init es) = [] ∧ tokens (run init es) = [].
Proof.
  induction es as [|e es IH] using rev_ind; [done|].
  rewrite forallb_app. cbn. rewrite andb_true_r.
  intros [Hes He]%andb_true_iff. destruct (IH Hes) as [Hs Ht].
  rewrite run_snoc. pose proof (step_cases _ e (run_known es)) as Hc.
  destruct e as [docs| |i o|a|a|i r|s]; try discriminate; try done.
  - cbn. rewrite resume_out_of_range; [done|]. rewrite Hs. cbn. lia.
  - by destruct Hc as [->| ->].
Qed.

Lemma run_app w es es' : run w (es ++ es') = run (run w es) es'.
Proof. unfold run. by rewrite foldl_app. Qed.

Lemma run_known_from w es : callbacks_known w → callbacks_known (run w es).
Proof.
  intros Hk. induction es as [|e es IH] using rev_ind; [done|].
  rewrite run_snoc. by apply step_known.
Qed.

(** With no callback suspended and no snapshot delivered, nothing touches
    the token list. *)
Lemma run_idle w es :
  callbacks_known w → suspended w = [] →
  forallb (λ e, negb (is_snapshot e)) es = true →
  suspended (run w es) = [] ∧ tokens (run w es) = tokens w.
Proof.
  intros Hk Hnone. induction es as [|e es IH] using rev_ind; [done|].
  rewrite forallb_app. cbn. rewrite andb_true_r.
  intros [Hes He]%andb_true_iff. destruct (IH Hes) as [Hs Ht].
  rewrite run_snoc.
  pose proof (step_cases _ e (run_known_from w es Hk)) as Hc.
  destruct e as [docs| |i o|a|a|i r|s]; try discriminate; try done.
  - cbn. rewrite resume_out_of_range; [done|]. rewrite Hs. cbn. lia.
  - by destruct Hc as [->| ->].
Qed.

(** While no fetch settles and the subscription does not fail, the page
    keeps loading and shows nothing. *)
Lemma run_waiting es :
  forallb (λ e, negb (is_settled e) && negb (is_subscription_error e)) es = true →
  isLoading (run init es) = true ∧ tokens (run init es) = [].
Proof.
  induction es as [|e es IH] using rev_ind; [done|].
  rewrite forallb_app. cbn. rewrite andb_true_r.
  intros [Hes [Hs He]%andb_true_iff]%andb_true_iff.
  destruct (IH Hes) as [Hl Ht]. rewrite run_snoc. split.
  - rewrite step_loading_kept; [done|apply run_known| |].
    + by destruct (is_settled e).
    + intros ->. discriminate.
  - rewrite step_tokens; [done|apply run_known|]. by destruct (is_settled e).
Qed.

Lemma resume_at w i o docs :
  suspended w !! i = Some (after_fetch docs) →
  resume i o w =
  mkWorld (combinedTokens (collect_docs docs) (catalog_of o)) (searchTerm w)
          false (fetches w) (outbox w) (delete i (suspended w)) (writing w)
          (escaped w).
Proof. intros Hi. unfold resume. by rewrite Hi, exec_after_fetch. Qed.

(** ** The join *)

Lemma or_zero_id x : or_zero x = x.
Proof. unfold or_zero. destruct (Z.eqb_spec x 0); congruence. Qed.

Lemma opt_or_zero_default v : opt_or_zero v = default 0 v.
Proof. destruct v; [apply or_zero_id|reflexivity]. Qed.

Lemma combinedTokens_jupiter T C : map jupiter (combinedTokens T C) = C.
Proof.
  unfold combinedTokens. rewrite map_map. cbn. apply map_id.
Qed.

(** C1. For every tally mapping [T] and catalog [C], the merged sequence
    has exactly one entry per catalog entry, in catalog order; the counts
    of the entry for [c] are those stored under [address c] in [T] (a count
    missing from the stored tally reads as 0) and are 0 and 0 when [T] has
    no tally for that address; an address that has a tally but is not in
    the catalog gets no entry. *)
Theorem combinedTokens_join (T : gmap string FirebaseData)
    (C : list JupiterToken) :
  map jupiter (combinedTokens T C) = C ∧
  (∀ i c, C !! i = Some c →
     ∃ v, combinedTokens T C !! i = Some v ∧ jupiter v = c ∧
       match T !! address c with
       | Some d => likes v = default 0 (d !! "likes") ∧
                   dislikes v = default 0 (d !! "dislikes")
       | None => likes v = 0 ∧ dislikes v = 0
       end) ∧
  (∀ a, a ∈ dom T → a ∉ map address C →
     ∀ v, v ∈ combinedTokens T C → token_address v ≠ a).
Proof.
  split; [apply combinedTokens_jupiter|]. split.
  - intros i c Hc. unfold combinedTokens.
    eexists. split; [by rewrite list_lookup_fmap, Hc|]. cbn.
    split; [done|]. unfold opt_chain.
    destruct (T !! address c) as [d|]; [|done].
    by rewrite !opt_or_zero_default.
  - intros a _ Ha v Hv <-. apply Ha.
    unfold combinedTokens in Hv. apply list_elem_of_fmap in Hv as (c & -> & Hc).
    cbn. apply list_elem_of_fmap. by exists c.
Qed.

Lemma combinedTokens_join_witness :
  (∃ v, combinedTokens tally_B [token_A; token_B] !! 1%nat = Some v ∧
        jupiter v = token_B ∧ likes v = 3 ∧ dislikes v = 2) ∧
  (∃ v, combinedTokens tally_B [token_A; token_B] !! 0%nat = Some v ∧
        jupiter v = token_A ∧ likes v = 0 ∧ dislikes v = 0) ∧
  (∀ v, v ∈ combinedTokens tally_B [token_A; token_B] → token_address v ≠ "Z").
Proof.
  destruct (combinedTokens_join tally_B [token_A; token_B]) as (_ & H & Habsent).
  split; [|split].
  - destruct (H 1%nat token_B eq_refl) as (v & Hv & Hj & Hc).
    exists v. split; [exact Hv|]. split; [exact Hj|]. exact Hc.
  - destruct (H 0%nat token_A eq_refl) as (v & Hv & Hj & Hc).
    exists v. split; [exact Hv|]. split; [exact Hj|]. exact Hc.
  - apply (Habsent "Z").
    + apply elem_of_dom. by exists {["likes" := 7]}.
    + intros Hin. apply list_elem_of_In in Hin. cbn in Hin.
      destruct Hin as [Hin|[Hin|[]]]; discriminate.
Defined.

(** ** The catalog fetch *)

(** In the vote scenario of the specification the catalog is requested
    twice: once for the first snapshot and once more for the snapshot that
    follows the vote. *)
Lemma catalog_refetched_after_vote :
  ¬ fetched_at_most_once (run init vote_scenario).
Proof. unfold fetched_at_most_once. cbn. lia. Qed.

(** C2 (as the code has it). The catalog is requested once for every
    tally snapshot delivered: a delivery appends exactly one request for
    the catalog, and after [n] deliveries [n] requests have been made. *)
Theorem catalog_fetched_per_snapshot :
  (∀ es docs,
     fetches (step (run init es) (Snapshot docs)) =
     fetches (run init es) ++ [catalog_url]) ∧
  (∀ es,
     fetches (run init es) =
     replicate (length (List.filter is_snapshot es)) catalog_url).
Proof.
  split; [reflexivity|]. apply run_fetches.
Qed.

(** C3. [fetchJupiterTokens] settles to a value for every outcome of the
    request, and to the empty list when the request is rejected, the
    status is outside 200-299 or the body does not decode; a snapshot
    callback resumed with such an outcome leaves the token list empty and
    the loading flag off; in no run does an event other than the refusal
    of a write let an exception escape. *)
Theorem fetch_failure_degrades :
  (∀ o, ∃ data, settle fetchJupiterTokens o = Ret data ∧
                (failed o = true → data = [])) ∧
  (∀ es i o,
     (i < length (suspended (run init es)))%nat → failed o = true →
     tokens (step (run init es) (FetchSettled i o)) = [] ∧
     isLoading (step (run init es) (FetchSettled i o)) = false) ∧
  (∀ es e, is_refusal e = false →
     escaped (step (run init es) e) = escaped (run init es)).
Proof.
  split; [|split].
  - intros o. exists (catalog_of o).
    split; [apply fetchJupiterTokens_settle|apply failed_catalog_of].
  - intros es i o Hi Ho. cbn.
    destruct (resume_known _ i o (run_known es) Hi) as (docs & _ & ->). cbn.
    by rewrite (failed_catalog_of o Ho).
  - intros es e He. apply step_escaped; [apply run_known|exact He].
Qed.

Lemma fetch_failure_degrades_witness :
  (∃ data, settle fetchJupiterTokens http_500 = Ret data ∧ data = []) ∧
  (tokens (step (run init [Snapshot []]) (FetchSettled 0 http_500)) = [] ∧
   isLoading (step (run init [Snapshot []]) (FetchSettled 0 http_500)) = false) ∧
  escaped (step (run init [Snapshot []]) (FetchSettled 0 http_500)) =
  escaped (run init [Snapshot []]).
Proof.
  destruct fetch_failure_degrades as (H1 & H2 & H3). split; [|split].
  - destruct (H1 http_500) as (data & Hs & Hd).
    exists data. split; [exact Hs|]. apply Hd. reflexivity.
  - apply (H2 [Snapshot []] 0%nat http_500); [cbn; lia|reflexivity].
  - apply (H3 [Snapshot []] (FetchSettled 0 http_500)). reflexivity.
Defined.

(** ** Votes *)

(** A delivery made before the vote can complete its join after it: the
    token list then changes although no snapshot is delivered after the
    click. *)
Lemma stale_join_after_vote :
  ¬ changes_only_on_later_delivery pending_delivery "A" settles_after_vote.
Proof.
  intros H. specialize (H eq_refl). vm_compute in H. discriminate H.
Qed.

(** C6 (as the code has it). A like or a dislike sends one [setDoc] that
    increments that field of that address by one, and changes nothing the
    page shows: the token list, the search term and the loading flag stay
    as they are.  The token list changes only when a snapshot callback
    completes its join; when no callback is suspended at the click, it
    stays as it is until a snapshot is delivered after the click. *)
Theorem vote_is_write_only (es : list Event) (addr : string) :
  let w := run init es in
  step w (Like addr) =
    mkWorld (tokens w) (searchTerm w) (isLoading w) (fetches w)
            (outbox w ++ [mkSetDoc "coins" addr [("likes", increment 1)] true])
            (suspended w) (writing w ++ [setDoc_settled]) (escaped w) ∧
  step w (Dislike addr) =
    mkWorld (tokens w) (searchTerm w) (isLoading w) (fetches w)
            (outbox w ++ [mkSetDoc "coins" addr [("dislikes", increment 1)] true])
            (suspended w) (writing w ++ [setDoc_settled]) (escaped w) ∧
  (∀ e, is_settled e = false → tokens (step w e) = tokens w) ∧
  (suspended w = [] →
   ∀ es', forallb (λ e, negb (is_snapshot e)) es' = true →
     tokens (run init (es ++ Like addr :: es')) = tokens w ∧
     tokens (run init (es ++ Dislike addr :: es')) = tokens w).
Proof.
  cbn zeta. split; [reflexivity|]. split; [reflexivity|]. split.
  - intros e. apply step_tokens, run_known.
  - intros Hnone es' Hes'.
    assert (∀ e, run init (es ++ e :: es') = run (step (run init es) e) es')
      as Hrun by (intros e; unfold run; by rewrite foldl_app).
    rewrite !Hrun. split.
    + destruct (run_idle (step (run init es) (Like addr)) es') as [_ ->];
        [apply step_known, run_known|exact Hnone|exact Hes'|reflexivity].
    + destruct (run_idle (step (run init es) (Dislike addr)) es') as [_ ->];
        [apply step_known, run_known|exact Hnone|exact Hes'|reflexivity].
Qed.

Lemma vote_is_write_only_witness :
  tokens (step (run init [Snapshot []; FetchSettled 0 catalog_A; Like "A"])
               (WriteSettled 0 Acknowledged)) =
  tokens (run init [Snapshot []; FetchSettled 0 catalog_A; Like "A"]) ∧
  tokens (run init ([Snapshot []; FetchSettled 0 catalog_A] ++
                    Like "A" :: [WriteSettled 0 Acknowledged; Search "foo"])) =
  tokens (run init [Snapshot []; FetchSettled 0 catalog_A]).
Proof.
  split.
  - destruct (vote_is_write_only
                [Snapshot []; FetchSettled 0 catalog_A; Like "A"] "A")
      as (_ & _ & H & _).
    apply (H (WriteSettled 0 Acknowledged)). reflexivity.
  - destruct (vote_is_write_only [Snapshot []; FetchSettled 0 catalog_A] "A")
      as (_ & _ & _ & H).
    destruct (H eq_refl [WriteSettled 0 Acknowledged; Search "foo"] eq_refl)
      as [Hl _].
    exact Hl.
Defined.

(** ** The loading flag *)

(** C9. The page starts loading with an empty token list and stays so
    while no fetch settles and the subscription does not fail; a delivered
    snapshot suspends its callback at the fetch without touching the flag;
    the first join to complete turns the flag from on to off and puts the
    joined list in place; completing any join turns the flag off; once
    off, the flag stays off whatever happens next. *)
Theorem loading_flag_machine :
  isLoading init = true ∧ tokens init = [] ∧
  (∀ es,
     forallb (λ e, negb (is_settled e) && negb (is_subscription_error e)) es
       = true →
     isLoading (run init es) = true ∧ tokens (run init es) = []) ∧
  (∀ es docs,
     suspended (step (run init es) (Snapshot docs)) =
       suspended (run init es) ++ [after_fetch docs] ∧
     isLoading (step (run init es) (Snapshot docs)) = isLoading (run init es)) ∧
  (∀ es docs o,
     forallb (λ e, negb (is_settled e) && negb (is_subscription_error e)) es
       = true →
     isLoading (run init (es ++ [Snapshot docs])) = true ∧
     isLoading (step (run init (es ++ [Snapshot docs]))
                     (FetchSettled (length (suspended (run init es))) o))
       = false ∧
     tokens (step (run init (es ++ [Snapshot docs]))
                  (FetchSettled (length (suspended (run init es))) o))
       = combinedTokens (collect_docs docs) (catalog_of o)) ∧
  (∀ es i o,
     (i < length (suspended (run init es)))%nat →
     isLoading (step (run init es) (FetchSettled i o)) = false) ∧
  (∀ es es',
     isLoading (run init es) = false →
     isLoading (run init (es ++ es')) = false).
Proof.
  split; [reflexivity|]. split; [reflexivity|].
  split; [exact run_waiting|]. split; [by intros es docs|]. split; [|split].
  - intros es docs o Hes. destruct (run_waiting es Hes) as [Hl _].
    rewrite run_snoc, step_snapshot. cbn [isLoading step].
    split; [exact Hl|].
    rewrite (resume_at _ _ o docs); [done|]. cbn [suspended].
    by apply list_lookup_middle.
  - intros es i o Hi. cbn.
    by destruct (resume_known _ i o (run_known es) Hi) as (docs & _ & ->).
  - intros es es' Hl. induction es' as [|e es' IH] using rev_ind.
    + by rewrite app_nil_r.
    + rewrite app_assoc, run_snoc. apply step_loading_false; [|exact IH].
      apply run_known.
Qed.

Lemma loading_flag_machine_witness :
  (isLoading (run init [Snapshot []; Like "A"; Snapshot []]) = true ∧
   tokens (run init [Snapshot []; Like "A"; Snapshot []]) = []) ∧
  (isLoading (run init ([Search "foo"] ++ [Snapshot []])) = true ∧
   isLoading (step (run init ([Search "foo"] ++ [Snapshot []]))
                   (FetchSettled 0 catalog_A)) = false ∧
   tokens (step (run init ([Search "foo"] ++ [Snapshot []]))
                (FetchSettled 0 catalog_A)) =
   combinedTokens (collect_docs []) (catalog_of catalog_A)) ∧
  isLoading (run init [Snapshot []; FetchSettled 0 catalog_A]) = false ∧
  isLoading (run init vote_scenario) = false.
Proof.
  destruct loading_flag_machine as (_ & _ & H3 & _ & H5 & H6 & H7).
  split; [|split; [|split]].
  - apply (H3 [Snapshot []; Like "A"; Snapshot []]). reflexivity.
  - apply (H5 [Search "foo"] [] catalog_A). reflexivity.
  - apply (H6 [Snapshot []] 0%nat catalog_A). cbn. lia.
  - apply (H7 [Snapshot []; FetchSettled 0 catalog_A]
              [Like "A"; WriteSettled 0 Acknowledged;
               Snapshot [("A", {["likes" := 1; "dislikes" := 0]})]]).
    reflexivity.
Defined.

(** C10. The error callback of the subscription turns the loading flag
    off and leaves the token list as it was; when no snapshot has been
    delivered before, the page shows an empty list and is not loading. *)
Theorem subscription_error_ends_loading :
  (∀ w, isLoading (step w SnapshotError) = false ∧
        tokens (step w SnapshotError) = tokens w) ∧
  (∀ es, forallb (λ e, negb (is_snapshot e)) es = true →
     tokens (run init (es ++ [SnapshotError])) = [] ∧
     isLoading (run init (es ++ [SnapshotError])) = false).
Proof.
  split; [done|]. intros es Hes. rewrite run_snoc.
  destruct (run_quiet es Hes) as [_ Ht]. by split.
Qed.

Lemma subscription_error_ends_loading_witness :
  tokens (run init ([Search "foo"; Like "A"] ++ [SnapshotError])) = [] ∧
  isLoading (run init ([Search "foo"; Like "A"] ++ [SnapshotError])) = false.
Proof.
  apply subscription_error_ends_loading. reflexivity.
Defined.

(** ** Substring search *)

Lemma starts_with_spec s t :
  starts_with s t = true ↔ ∃ post, t = s +:+ post.
Proof.
  revert t. induction s as [|a s IH]; intros t.
  - split; [by exists t|done].
  - destruct t as [|b t]; cbn.
    + split; [done|]. by intros [post ?].
    + rewrite andb_true_iff, bool_decide_eq_true, IH. split.
      * intros [-> [post ->]]. by exists post.
      * intros [post Heq]. injection Heq as -> ->. split; [done|by exists post].
Qed.

Lemma includes_spec t s : includes t s = true ↔ substring_of s t.
Proof.
  unfold substring_of. induction t as [|c t IH].
  - cbn. rewrite orb_false_r, starts_with_spec. split.
    + intros [post ->]. by exists "", post.
    + intros (pre & post & Heq). exists post.
      destruct pre; [done|discriminate].
  - cbn [includes]. rewrite orb_true_iff, starts_with_spec, IH. split.
    + intros [[post ->]|(pre & post & ->)].
      * by exists "", post.
      * by exists (String c pre), post.
    + intros (pre & post & Heq). destruct pre as [|c' pre].
      * left. by exists post.
      * right. injection Heq as -> ->. by exists pre, post.
Qed.

Lemma includes_empty t : includes t "" = true.
Proof. apply includes_spec. by exists "", t. Qed.

(** ** The sort *)

Lemma sort_insert_perm {A} (cmp : A → A → Z) x l :
  sort_insert cmp x l ≡ₚ x :: l.
Proof.
  induction l as [|y l IH]; [done|]. cbn.
  destruct (0 <? cmp x y); [|done].
  by rewrite IH, Permutation_swap.
Qed.

Lemma sort_perm {A} (cmp : A → A → Z) l : sort cmp l ≡ₚ l.
Proof.
  induction l as [|x l IH]; [done|]. cbn.
  by rewrite sort_insert_perm, IH.
Qed.

Lemma sort_insert_sorted x l :
  StronglySorted likes_ge l → StronglySorted likes_ge (sort_insert by_likes x l).
Proof.
  induction 1 as [|y l Hs IH Hy]; cbn.
  - by repeat constructor.
  - unfold by_likes at 1. destruct (Z.ltb_spec 0 (likes y - likes x)) as [Hlt|Hge].
    + constructor; [exact IH|]. rewrite sort_insert_perm.
      constructor; [unfold likes_ge; lia|exact Hy].
    + constructor; [by constructor|].
      constructor; [unfold likes_ge; lia|].
      eapply Forall_impl; [exact Hy|]. unfold likes_ge. cbn. intros; lia.
Qed.

Lemma sort_sorted l : StronglySorted likes_ge (sort by_likes l).
Proof.
  induction l as [|x l IH]; [constructor|]. by apply sort_insert_sorted.
Qed.

Lemma sorted_lookup (l : list Token) i j a b :
  StronglySorted likes_ge l → (i < j)%nat →
  l !! i = Some a → l !! j = Some b → likes b <= likes a.
Proof.
  intros Hs. revert i j. induction Hs as [|x l Hs IH Hx]; intros i j Hij Ha Hb.
  - done.
  - destruct j as [|j]; [lia|]. cbn in Hb. destruct i as [|i].
    + injection Ha as <-.
      apply (proj1 (Forall_forall _ _) Hx b). by eapply list_elem_of_lookup_2.
    + cbn in Ha. apply (IH i j); [lia|done..].
Qed.

Lemma with_likes_sort_insert n x l :
  with_likes n (sort_insert by_likes x l) = with_likes n (x :: l).
Proof.
  induction l as [|y l IH]; [done|]. cbn.
  unfold by_likes at 1. destruct (Z.ltb_spec 0 (likes y - likes x)) as [Hlt|Hge];
    [|done].
  unfold with_likes in *. cbn in *. rewrite IH.
  destruct (Z.eqb_spec (likes x) n), (Z.eqb_spec (likes y) n); try done; lia.
Qed.

Lemma with_likes_sort n l : with_likes n (sort by_likes l) = with_likes n l.
Proof.
  induction l as [|x l IH]; [done|]. cbn [sort foldr].
  change (foldr (sort_insert by_likes) [] l) with (sort by_likes l).
  rewrite with_likes_sort_insert. unfold with_likes in *. cbn. by rewrite IH.
Qed.

Lemma with_likes_cons n x l :
  with_likes n (x :: l) =
  if likes x =? n then x :: with_likes n l else with_likes n l.
Proof. reflexivity. Qed.

Lemma with_likes_head x l : with_likes (likes x) (x :: l) = x :: with_likes (likes x) l.
Proof. by rewrite with_likes_cons, Z.eqb_refl. Qed.

Lemma sorted_head_max (x y : Token) l :
  StronglySorted likes_ge (y :: l) → x ∈ y :: l → likes x <= likes y.
Proof.
  intros Hs Hx. apply StronglySorted_inv in Hs as [_ Hall].
  apply elem_of_cons in Hx as [->|Hx]; [lia|].
  by apply (proj1 (Forall_forall _ _) Hall x).
Qed.

Lemma with_likes_elem n x l : x ∈ with_likes n l → x ∈ l.
Proof.
  unfold with_likes. rewrite !list_elem_of_In, filter_In. tauto.
Qed.

(** Two lists in descending order of likes that agree, for every like
    count, on the entries having it, are the same list. *)
Lemma sorted_with_likes_unique (l1 l2 : list Token) :
  StronglySorted likes_ge l1 → StronglySorted likes_ge l2 →
  (∀ n, with_likes n l1 = with_likes n l2) → l1 = l2.
Proof.
  revert l2. induction l1 as [|x l1 IH]; intros [|y l2] Hs1 Hs2 Heq.
  - done.
  - specialize (Heq (likes y)). by rewrite with_likes_head in Heq.
  - specialize (Heq (likes x)). by rewrite with_likes_head in Heq.
  - assert (likes x <= likes y) as Hxy.
    { apply (sorted_head_max x y l2 Hs2), (with_likes_elem (likes x)).
      rewrite <- Heq, with_likes_head. apply list_elem_of_here. }
    assert (likes y <= likes x) as Hyx.
    { apply (sorted_head_max y x l1 Hs1), (with_likes_elem (likes y)).
      rewrite Heq, with_likes_head. apply list_elem_of_here. }
    assert (x = y) as <-.
    { pose proof (Heq (likes x)) as H. rewrite with_likes_head in H.
      rewrite with_likes_cons in H.
      destruct (Z.eqb_spec (likes y) (likes x)); [by injection H|lia]. }
    f_equal. apply IH.
    + by apply StronglySorted_inv in Hs1 as [? _].
    + by apply StronglySorted_inv in Hs2 as [? _].
    + intros n. specialize (Heq n). rewrite !with_likes_cons in Heq.
      destruct (likes x =? n); [by injection Heq|done].
Qed.

(** The result of a stable sort by the comparator of the page is
    determined: any list in descending order of likes that keeps, for each
    like count, the input order of the entries having it is [sort by_likes]
    of the input. *)
Lemma sort_canonical (l l' : list Token) :
  StronglySorted likes_ge l' → (∀ n, with_likes n l' = with_likes n l) →
  l' = sort by_likes l.
Proof.
  intros Hs Heq. apply sorted_with_likes_unique; [done|apply sort_sorted|].
  intros n. by rewrite with_likes_sort.
Qed.

(** ** The derived list *)

Section Derived.

Variable toLowerCase : string → string.
Hypothesis toLowerCase_empty : toLowerCase "" = "".

Lemma matches_spec s e :
  matches toLowerCase s e = true ↔
  substring_of (toLowerCase s) (toLowerCase (token_name e)) ∨
  substring_of (toLowerCase s) (toLowerCase (token_address e)).
Proof. unfold matches. by rewrite orb_true_iff, !includes_spec. Qed.

Lemma matches_empty e : matches toLowerCase "" e = true.
Proof.
  unfold matches. by rewrite toLowerCase_empty, includes_empty.
Qed.

(** C4. An entry is in the derived list exactly when it is a token of the
    page whose lower-cased name or lower-cased address contains the
    lower-cased search term; with the empty search term the derived list
    holds every token, each as often as the page has it. *)
Theorem search_filter (tokens : list Token) (s : string) :
  (∀ e, e ∈ filteredAndSortedTokens toLowerCase tokens s ↔
        e ∈ tokens ∧
        (substring_of (toLowerCase s) (toLowerCase (token_name e)) ∨
         substring_of (toLowerCase s) (toLowerCase (token_address e)))) ∧
  filteredAndSortedTokens toLowerCase tokens "" ≡ₚ tokens.
Proof.
  unfold filteredAndSortedTokens. split.
  - intros e. rewrite sort_perm, !list_elem_of_In, filter_In.
    by rewrite matches_spec.
  - rewrite sort_perm. induction tokens as [|t ts IH]; [done|].
    cbn. rewrite matches_empty. by rewrite IH.
Qed.

(** C5. In the derived list an entry with more likes stands before an
    entry with fewer, and for every like count the entries having it stand
    in the order the filtered input had them. *)
Theorem sort_by_likes_stable (tokens : list Token) (s : string) :
  let input := List.filter (matches toLowerCase s) tokens in
  let out := filteredAndSortedTokens toLowerCase tokens s in
  (∀ i j a b, out !! i = Some a → out !! j = Some b →
              likes a > likes b → (i < j)%nat) ∧
  (∀ n, with_likes n out = with_likes n input).
Proof.
  cbn. unfold filteredAndSortedTokens. split.
  - intros i j a b Ha Hb Hgt.
    destruct (decide (i < j)%nat) as [|Hij]; [done|]. exfalso.
    destruct (decide (i = j)) as [->|Hne].
    + rewrite Ha in Hb. injection Hb as ->. lia.
    + assert (likes a <= likes b); [|lia].
      eapply (sorted_lookup _ j i b a); [apply sort_sorted|lia|done..].
  - intros n. apply with_likes_sort.
Qed.

End Derived.

Lemma search_filter_witness :
  entry "A1" "Foo Token" 0 ∈
    filteredAndSortedTokens ascii_toLowerCase search_entries "foo" ∧
  filteredAndSortedTokens ascii_toLowerCase search_entries "" ≡ₚ search_entries.
Proof.
  split.
  - apply (search_filter ascii_toLowerCase eq_refl search_entries "foo").
    split; [apply list_elem_of_here|]. left. by exists "", " token".
  - apply (search_filter ascii_toLowerCase eq_refl search_entries "").
Defined.

Lemma sort_by_likes_stable_witness :
  (0 < 1)%nat ∧
  with_likes 3 (filteredAndSortedTokens ascii_toLowerCase ranked_entries "") =
  [entry "a" "first" 3; entry "b" "second" 3].
Proof.
  destruct (sort_by_likes_stable ascii_toLowerCase ranked_entries "") as [H1 H2].
  split.
  - apply (H1 0%nat 1%nat (entry "c" "third" 5) (entry "a" "first" 3));
      [reflexivity|reflexivity|reflexivity].
  - rewrite H2. reflexivity.
Defined.

(** The scenarios of the specification, run. *)
Example search_foo :
  filteredAndSortedTokens ascii_toLowerCase search_entries "foo" =
  [entry "A1" "Foo Token" 0].
Proof. reflexivity. Qed.

Example ranked_3_3_5_1 :
  map token_address (filteredAndSortedTokens ascii_toLowerCase ranked_entries "") =
  ["c"; "a"; "b"; "d"].
Proof. reflexivity. Qed.

(** ** The tally store *)

Lemma issued_handleLike addr :
  issued (handleLike addr) = [mkSetDoc "coins" addr [("likes", increment 1)] true].
Proof. reflexivity. Qed.

Lemma issued_handleDislike addr :
  issued (handleDislike addr) =
  [mkSetDoc "coins" addr [("dislikes", increment 1)] true].
Proof. reflexivity. Qed.

Lemma apply_vote store a f :
  apply_setDoc store (mkSetDoc "coins" a [(f, increment 1)] true) =
  <[a := <[f := default 0 (default ∅ (store !! a) !! f) + 1]>
           (default ∅ (store !! a))]> store.
Proof. reflexivity. Qed.

Lemma shown_default store a f : shown store a f = default 0 (opt_chain store a f).
Proof. apply opt_or_zero_default. Qed.

Lemma shown_apply_vote store a f a' f' :
  shown (apply_setDoc store (mkSetDoc "coins" a [(f, increment 1)] true)) a' f' =
  shown store a' f' + (if bool_decide (a = a' ∧ f = f') then 1 else 0).
Proof.
  rewrite apply_vote, !shown_default. unfold opt_chain.
  destruct (decide (a = a')) as [<-|Ha].
  - rewrite lookup_insert_eq. destruct (decide (f = f')) as [<-|Hf].
    + rewrite lookup_insert_eq, bool_decide_eq_true_2 by done. cbn.
      by destruct (store !! a).
    + rewrite lookup_insert_ne by done.
      rewrite bool_decide_eq_false_2 by (intros [_ ?]; done).
      destruct (store !! a); cbn; [lia|]. rewrite lookup_empty. cbn. lia.
  - rewrite lookup_insert_ne by done.
    rewrite bool_decide_eq_false_2 by (intros [? _]; done). lia.
Qed.

Lemma votes_delete a f pending i c :
  pending !! i = Some c →
  votes a f pending =
  ((if bool_decide (c = mkSetDoc "coins" a [(f, increment 1)] true)
    then 1 else 0) + votes a f (delete i pending))%nat.
Proof.
  unfold votes. revert i. induction pending as [|x l IH]; intros i Hi; [done|].
  destruct i as [|i].
  - injection Hi as ->. cbn. by destruct (bool_decide _).
  - cbn in Hi. change (delete (S i) (x :: l)) with (x :: delete i l).
    cbn [List.filter]. specialize (IH i Hi).
    destruct (bool_decide (x = _)), (bool_decide (c = _)); cbn [length] in *; lia.
Qed.

(** However the store orders the votes in flight, each one is counted. *)
Lemma serves_votes store pending store' a f :
  serves store pending store' →
  Forall (λ c, ∃ a0 f0, c = mkSetDoc "coins" a0 [(f0, increment 1)] true) pending →
  shown store' a f = shown store a f + Z.of_nat (votes a f pending).
Proof.
  induction 1 as [store|store pending i c store' Hi Hs IH]; intros Hall.
  - cbn. lia.
  - destruct (proj1 (Forall_lookup _ _) Hall i c Hi) as (a0 & f0 & ->).
    rewrite IH by by apply Forall_delete.
    rewrite shown_apply_vote, (votes_delete a f pending i _ Hi).
    destruct (decide (a0 = a ∧ f0 = f)) as [[-> ->]|Hne].
    + rewrite !bool_decide_eq_true_2 by done. lia.
    + rewrite !bool_decide_eq_false_2; [lia| |done].
      intros Heq. injection Heq as -> ->. by apply Hne.
Qed.

Lemma serves_total store pending : ∃ store', serves store pending store'.
Proof.
  revert store. induction pending as [|c l IH]; intros store.
  - exists store. constructor.
  - destruct (IH (apply_setDoc store c)) as [store' Hs].
    exists store'. by apply (serves_pick store (c :: l) 0%nat c).
Qed.

Lemma collect_docs_snoc docs d :
  collect_docs (docs ++ [d]) = <[d.1 := d.2]> (collect_docs docs).
Proof. unfold collect_docs. by rewrite foldl_app. Qed.

Lemma collect_docs_list_to_map docs :
  collect_docs docs = list_to_map (reverse docs).
Proof.
  induction docs as [|d docs IH] using rev_ind; [done|].
  rewrite collect_docs_snoc, reverse_app, IH. by destruct d.
Qed.

(** The page rebuilds exactly the collection that was delivered. *)
Lemma collect_docs_delivered store : collect_docs (delivered store) = store.
Proof.
  unfold delivered. rewrite collect_docs_list_to_map.
  rewrite <- (list_to_map_to_list store) at 2.
  apply list_to_map_proper.
  - rewrite reverse_Permutation. apply NoDup_fst_map_to_list.
  - apply reverse_Permutation.
Qed.

(** C7. The write a vote sends is applied by the store in one step as an
    addition under merge: when the address has no document, one is created
    holding only the voted field, at 1; when it has one, the voted field
    grows by one (an unset field counting as 0) and every other field of
    the document keeps its value; the documents of other addresses are
    untouched. *)
Theorem increment_merges (store : gmap string FirebaseData) (addr : string) :
  let liked := foldl apply_setDoc store (issued (handleLike addr)) in
  let disliked := foldl apply_setDoc store (issued (handleDislike addr)) in
  (store !! addr = None →
     liked !! addr = Some {["likes" := 1]} ∧
     disliked !! addr = Some {["dislikes" := 1]}) ∧
  (∀ d, store !! addr = Some d →
     (∃ d', liked !! addr = Some d' ∧
            d' !! "likes" = Some (default 0 (d !! "likes") + 1) ∧
            ∀ f, f ≠ "likes" → d' !! f = d !! f) ∧
     (∃ d', disliked !! addr = Some d' ∧
            d' !! "dislikes" = Some (default 0 (d !! "dislikes") + 1) ∧
            ∀ f, f ≠ "dislikes" → d' !! f = d !! f)) ∧
  (∀ a, a ≠ addr → liked !! a = store !! a ∧ disliked !! a = store !! a).
Proof.
  cbn zeta. rewrite issued_handleLike, issued_handleDislike.
  cbn [foldl]. rewrite !apply_vote. split; [|split].
  - intros ->. rewrite !lookup_insert_eq. cbn. by rewrite !lookup_empty.
  - intros d ->. rewrite !lookup_insert_eq. cbn. split.
    + eexists. split; [done|]. split; [by rewrite lookup_insert_eq|].
      intros f Hf. by rewrite lookup_insert_ne.
    + eexists. split; [done|]. split; [by rewrite lookup_insert_eq|].
      intros f Hf. by rewrite lookup_insert_ne.
  - intros a Ha. by rewrite !lookup_insert_ne.
Qed.

Lemma increment_merges_witness :
  foldl apply_setDoc ∅ (issued (handleLike "A")) !! "A" = Some {["likes" := 1]} ∧
  (∃ d', foldl apply_setDoc store_A (issued (handleLike "A")) !! "A" = Some d' ∧
         d' !! "likes" = Some 5 ∧ d' !! "note" = Some 9) ∧
  foldl apply_setDoc store_A (issued (handleDislike "B")) !! "A" = store_A !! "A".
Proof.
  split; [|split].
  - destruct (increment_merges ∅ "A") as (H & _ & _).
    destruct (H eq_refl) as [Hl _]. exact Hl.
  - destruct (increment_merges store_A "A") as (_ & H & _).
    destruct (H {["likes" := 4; "note" := 9]} eq_refl) as [(d' & Hd & Hl & Ho) _].
    exists d'. split; [exact Hd|]. split; [exact Hl|].
    rewrite (Ho "note"); [reflexivity|discriminate].
  - destruct (increment_merges store_A "B") as (_ & _ & H).
    destruct (H "A") as [_ Hd]; [discriminate|exact Hd].
Defined.

(** C8. Two likes of one address, sent by two callers while the address
    has no tally, are both counted whichever the store takes first: the
    store ends with likes = 2 for the address, and that is the tally the
    subscription delivers and the page shows. *)
Theorem concurrent_likes_not_lost
    (store store' : gmap string FirebaseData) (addr : string) :
  store !! addr = None →
  serves store (issued (handleLike addr) ++ issued (handleLike addr)) store' →
  store' !! addr = Some {["likes" := 2]} ∧
  shown (collect_docs (delivered store')) addr "likes" = 2.
Proof.
  intros Hnone Hs. rewrite collect_docs_delivered.
  rewrite issued_handleLike in Hs. cbn [app] in Hs.
  assert (∀ i c, [mkSetDoc "coins" addr [("likes", increment 1)] true;
                  mkSetDoc "coins" addr [("likes", increment 1)] true] !! i = Some c →
                 c = mkSetDoc "coins" addr [("likes", increment 1)] true) as Hpick.
  { intros [|[|i]] c Hc; cbn in Hc; by simplify_eq. }
  inversion Hs as [|? ? i c ? Hi Hs1]; subst.
  apply Hpick in Hi as Hc. subst c.
  assert (delete i [mkSetDoc "coins" addr [("likes", increment 1)] true;
                    mkSetDoc "coins" addr [("likes", increment 1)] true] =
          [mkSetDoc "coins" addr [("likes", increment 1)] true]) as Hdel.
  { destruct i as [|[|i]]; [done|done|discriminate]. }
  rewrite Hdel in Hs1.
  inversion Hs1 as [|? ? j c ? Hj Hs2]; subst.
  destruct j as [|j]; [|discriminate]. injection Hj as <-.
  inversion Hs2 as [|? ? k c ? Hk _]; subst; [|by destruct k].
  assert (apply_setDoc
            (apply_setDoc store (mkSetDoc "coins" addr [("likes", increment 1)] true))
            (mkSetDoc "coins" addr [("likes", increment 1)] true) !! addr =
          Some {["likes" := 2]}) as Hfin.
  { rewrite !apply_vote, !lookup_insert_eq, Hnone. cbn.
    rewrite lookup_insert_eq. cbn. by rewrite insert_insert_eq. }
  split; [exact Hfin|].
  unfold shown, opt_chain. by rewrite Hfin.
Qed.

Lemma concurrent_likes_not_lost_witness :
  ∃ store', serves ∅ (issued (handleLike "A") ++ issued (handleLike "A")) store' ∧
            store' !! "A" = Some {["likes" := 2]} ∧
            shown (collect_docs (delivered store')) "A" "likes" = 2.
Proof.
  destruct (serves_total ∅ (issued (handleLike "A") ++ issued (handleLike "A")))
    as [store' Hs].
  exists store'. split; [exact Hs|].
  apply (concurrent_likes_not_lost ∅ store' "A"); [reflexivity|exact Hs].
Defined.

(** In the same store, two writers that each sent the value computed from
    their own copy of an absent tally would be counted once: the page does
    not write that way. *)
Remark plain_writes_lose_a_vote (store' : gmap string FirebaseData) :
  serves ∅ [mkSetDoc "coins" "A" [("likes", Plain 1)] true;
            mkSetDoc "coins" "A" [("likes", Plain 1)] true] store' →
  store' !! "A" = Some {["likes" := 1]}.
Proof.
  intros Hs.
  inversion Hs as [|? ? i c ? Hi Hs1]; subst.
  destruct i as [|[|i]]; try discriminate; injection Hi as <-;
    (inversion Hs1 as [|? ? j c ? Hj Hs2]; subst;
     destruct j as [|j]; [|discriminate]; injection Hj as <-;
     inversion Hs2 as [|? ? k c ? Hk _]; subst; [|by destruct k];
     reflexivity).
Qed.

(** ** The vote scenario, end to end *)

Example vote_scenario_joined :
  let w := run init (vote_scenario ++ [FetchSettled 0 catalog_A]) in
  map (λ t, (token_address t, likes t, dislikes t)) (view ascii_toLowerCase w) =
    [("A", 1, 0)] ∧
  isLoading w = false ∧ outbox w = issued (handleLike "A") ∧
  fetches w = [catalog_url; catalog_url] ∧ escaped w = [].
Proof. repeat split; reflexivity. Qed.

(** A refused write is the one exception that no handler takes. *)
Example refused_write_escapes :
  escaped (run init [Like "A"; WriteSettled 0 Refused]) = [WriteRefused].
Proof. reflexivity. Qed.

Example http_500_scenario :
  let w := run init [Snapshot []; FetchSettled 0 http_500] in
  tokens w = [] ∧ isLoading w = false ∧ escaped w = [].
Proof. repeat split; reflexivity. Qed.

(** * Further properties of the page *)

(** ** The snapshot as the callback reads it *)

Lemma collect_docs_app pre post :
  collect_docs (pre ++ post) =
  foldl (λ acc d, <[d.1 := d.2]> acc) (collect_docs pre) post.
Proof. unfold collect_docs. by rewrite foldl_app. Qed.

Lemma foldl_insert_other (post : list (string * FirebaseData))
    (m : gmap string FirebaseData) a :
  a ∉ post.*1 → foldl (λ acc d, <[d.1 := d.2]> acc) m post !! a = m !! a.
Proof.
  revert m. induction post as [|[b d] post IH]; intros m Ha; [done|].
  cbn in *. apply not_elem_of_cons in Ha as [Hab Ha].
  rewrite IH by done. by rewrite lookup_insert_ne.
Qed.

Lemma collect_docs_lookup_elem docs a d :
  collect_docs docs !! a = Some d → (a, d) ∈ docs.
Proof.
  induction docs as [|[b d'] docs IH] using rev_ind; [done|].
  rewrite collect_docs_snoc. cbn. intros Hl. apply elem_of_app.
  destruct (decide (b = a)) as [->|Hne].
  - rewrite lookup_insert_eq in Hl. injection Hl as ->.
    right. apply list_elem_of_here.
  - rewrite lookup_insert_ne in Hl by done. left. by apply IH.
Qed.

(** Reading a collection: an id that no delivered document has is absent
    from the object the callback builds, and for an id delivered more than
    once the document delivered last is the one kept. *)
Theorem collect_docs_last_wins (docs : list (string * FirebaseData)) (a : string) :
  (a ∉ docs.*1 → collect_docs docs !! a = None) ∧
  (∀ pre d post, docs = pre ++ (a, d) :: post → a ∉ post.*1 →
     collect_docs docs !! a = Some d).
Proof.
  split.
  - intros Ha. unfold collect_docs. by rewrite foldl_insert_other.
  - intros pre d post -> Ha. rewrite collect_docs_app. cbn.
    rewrite foldl_insert_other by done. apply lookup_insert_eq.
Qed.

Lemma collect_docs_last_wins_witness :
  collect_docs [("A", {["likes" := 1]}); ("B", {["likes" := 5]});
                ("A", {["likes" := 2]})] !! "C" = None ∧
  collect_docs [("A", {["likes" := 1]}); ("B", {["likes" := 5]});
                ("A", {["likes" := 2]})] !! "A" = Some {["likes" := 2]}.
Proof.
  destruct (collect_docs_last_wins
              [("A", {["likes" := 1]}); ("B", {["likes" := 5]});
               ("A", {["likes" := 2]})] "C") as [H1 _].
  destruct (collect_docs_last_wins
              [("A", {["likes" := 1]}); ("B", {["likes" := 5]});
               ("A", {["likes" := 2]})] "A") as [_ H2].
  split.
  - apply H1. intros Hin. apply list_elem_of_In in Hin. cbn in Hin.
    destruct Hin as [Hin|[Hin|[Hin|[]]]]; discriminate.
  - apply (H2 [("A", {["likes" := 1]}); ("B", {["likes" := 5]})]
              {["likes" := 2]} []); [reflexivity|].
    apply not_elem_of_nil.
Defined.

(** ** What a run leaves behind *)

Lemma callbacks_from_mono es e w w' :
  suspended w' = suspended w → callbacks_from es w → callbacks_from (es ++ [e]) w'.
Proof.
  unfold callbacks_from. intros -> Hall. eapply Forall_impl; [exact Hall|].
  intros k (docs & Hin & ->). exists docs. split; [|done].
  apply elem_of_app. by left.
Qed.

Lemma joined_from_mono es e ts : joined_from es ts → joined_from (es ++ [e]) ts.
Proof.
  intros [->|(es1 & docs & es2 & i & o & es3 & -> & ->)]; [by left|]. right.
  exists es1, docs, es2, i, o, (es3 ++ [e]). split; [|done].
  rewrite <- app_assoc. cbn. by rewrite <- app_assoc.
Qed.

Lemma run_joined es :
  callbacks_from es (run init es) ∧ joined_from es (tokens (run init es)).
Proof.
  induction es as [|e es [IHc IHj]] using rev_ind.
  - split; [apply Forall_nil_2|by left].
  - rewrite run_snoc. pose proof (step_cases _ e (run_known es)) as Hc.
    destruct e as [docs| |i o|a|a|i r|s];
      try (split; [by apply (callbacks_from_mono es _ (run init es))
                  |by apply joined_from_mono]).
    + split; [|by apply joined_from_mono].
      rewrite step_snapshot. unfold callbacks_from. cbn. apply Forall_app. split.
      * by apply (callbacks_from_mono es (Snapshot docs) (run init es) (run init es)).
      * apply Forall_singleton. exists docs. split; [|done].
        apply elem_of_app. right. apply list_elem_of_here.
    + cbn. unfold resume.
      destruct (suspended (run init es) !! i) as [k|] eqn:Hk.
      * destruct (proj1 (Forall_lookup _ _) IHc i k Hk) as (docs & Hin & ->).
        rewrite exec_after_fetch. cbn. split.
        -- unfold callbacks_from. cbn. apply Forall_delete.
           by apply (callbacks_from_mono es (FetchSettled i o) (run init es)
                                         (run init es)).
        -- right. apply list_elem_of_split in Hin as (es1 & es2 & ->).
           exists es1, docs, es2, i, o, []. split; [|done].
           by rewrite <- app_assoc.
      * split; [by apply (callbacks_from_mono es _ (run init es))
               |by apply joined_from_mono].
    + destruct Hc as [->| ->].
      * split; [by apply (callbacks_from_mono es _ (run init es))
               |by apply joined_from_mono].
      * split; [by apply (callbacks_from_mono es _ (run init es))
               |by apply joined_from_mono].
Qed.

(** In every state a run can reach, the token list is empty or is the join
    of a snapshot delivered in the run with the catalog that a fetch
    settled to later in the run: the page never shows counts that no
    snapshot carried, nor tokens that no settled fetch returned. *)
Theorem tokens_always_joined (es : list Event) :
  joined_from es (tokens (run init es)).
Proof. apply run_joined. Qed.

(** A fetch that succeeds hands the catalog on as it came: the callback
    resumed with a 2xx response whose body decodes replaces the token list
    by the join of that catalog, in its order, with the snapshot the
    callback was started with, turns loading off and is gone from the
    suspended callbacks. *)
Theorem join_on_success (w : World) (i : nat)
    (docs : list (string * FirebaseData)) (st : nat) (data : list JupiterToken) :
  suspended w !! i = Some (after_fetch docs) →
  (200 ≤ st ≤ 299)%nat →
  let w' := step w (FetchSettled i (Responded (mkResponse st (JsonData data)))) in
  tokens w' = combinedTokens (collect_docs docs) data ∧
  map jupiter (tokens w') = data ∧
  isLoading w' = false ∧
  suspended w' = delete i (suspended w).
Proof.
  intros Hi [Hlo Hhi].
  assert (catalog_of (Responded (mkResponse st (JsonData data))) = data) as Hc.
  { unfold catalog_of, ok. cbn [status body].
    by rewrite (proj2 (Nat.leb_le 200 st) Hlo), (proj2 (Nat.leb_le st 299) Hhi). }
  cbn zeta. cbn [step]. unfold resume. rewrite Hi, exec_after_fetch, Hc.
  cbn [tokens isLoading suspended]. by rewrite combinedTokens_jupiter.
Qed.

Lemma join_on_success_witness :
  tokens (step (run init [Snapshot [("A", {["likes" := 2]})]])
               (FetchSettled 0 catalog_A)) =
  combinedTokens (collect_docs [("A", {["likes" := 2]})]) [token_A].
Proof.
  destruct (join_on_success (run init [Snapshot [("A", {["likes" := 2]})]])
              0%nat [("A", {["likes" := 2]})] 200%nat [token_A])
    as (H & _); [reflexivity|lia|exact H].
Defined.

Lemma delete_snoc {A} (l : list A) x : delete (length l) (l ++ [x]) = l.
Proof.
  induction l as [|y l IH]; [done|].
  change (y :: delete (length l) (l ++ [x]) = y :: l). by rewrite IH.
Qed.

(** Two snapshots delivered one after the other whose fetches settle in
    the opposite order: the token list ends as the join of the snapshot
    delivered first, since each callback writes what it was started with;
    the snapshot delivered last is not what the page shows. *)
Theorem last_settled_wins (w : World)
    (docs1 docs2 : list (string * FirebaseData)) (o1 o2 : FetchOutcome) :
  let n := length (suspended w) in
  let w' := run w [Snapshot docs1; Snapshot docs2;
                   FetchSettled (S n) o2; FetchSettled n o1] in
  tokens w' = combinedTokens (collect_docs docs1) (catalog_of o1) ∧
  suspended w' = suspended w.
Proof.
  cbn zeta. unfold run. cbn [foldl]. rewrite !step_snapshot. cbn [step].
  rewrite (resume_at _ _ o2 docs2); cbn [suspended].
  2:{ apply list_lookup_middle. rewrite length_app. cbn. lia. }
  replace (S (length (suspended w)))
    with (length (suspended w ++ [after_fetch docs1]))
    by (rewrite length_app; cbn; lia).
  rewrite delete_snoc.
  rewrite (resume_at _ _ o1 docs1); cbn [suspended tokens].
  2:{ by apply list_lookup_middle. }
  by rewrite delete_snoc.
Qed.

(** The writes a run has sent are exactly the votes clicked, one write
    per click and in the order of the clicks: nothing is merged, dropped
    or sent twice, and nothing else writes. *)
Theorem outbox_is_the_clicks (es : list Event) :
  outbox (run init es) = omap vote_of es.
Proof.
  induction es as [|e es IH] using rev_ind; [done|].
  rewrite run_snoc, omap_app.
  pose proof (step_cases _ e (run_known es)) as Hc.
  destruct e as [docs| |i o|a|a|i r|s]; cbn; rewrite ?app_nil_r;
    try exact IH; try (by rewrite <- IH).
  - change (outbox (step (run init es) (FetchSettled i o)) = omap vote_of es).
    by destruct Hc as [->|[docs ->]].
  - change (outbox (step (run init es) (WriteSettled i r)) = omap vote_of es).
    by destruct Hc as [->| ->].
Qed.

(** A run in which no write is refused ends with no exception outside a
    handler. *)
Theorem no_refusal_no_escape (es : list Event) :
  forallb (λ e, negb (is_refusal e)) es = true → escaped (run init es) = [].
Proof.
  induction es as [|e es IH] using rev_ind; [done|].
  rewrite forallb_app. cbn. rewrite andb_true_r.
  intros [Hes He]%andb_true_iff. rewrite run_snoc.
  rewrite step_escaped; [by apply IH|apply run_known|].
  by destruct (is_refusal e).
Qed.

Lemma no_refusal_no_escape_witness :
  escaped (run init [Snapshot []; FetchSettled 0 http_500; Like "A";
                     WriteSettled 0 Acknowledged; SnapshotError]) = [].
Proof. apply no_refusal_no_escape. reflexivity. Defined.

Lemma combinedTokens_counts T C t :
  t ∈ combinedTokens T C →
  likes t = default 0 (opt_chain T (token_address t) "likes") ∧
  dislikes t = default 0 (opt_chain T (token_address t) "dislikes").
Proof.
  unfold combinedTokens. intros (c & -> & _)%list_elem_of_fmap. cbn.
  by rewrite !opt_or_zero_default.
Qed.

Lemma opt_chain_nonneg docs a f :
  counts_nonneg docs → f = "likes" ∨ f = "dislikes" →
  0 <= default 0 (opt_chain (collect_docs docs) a f).
Proof.
  intros Hall Hf. unfold opt_chain.
  destruct (collect_docs docs !! a) as [d|] eqn:Hd; [|done].
  destruct (d !! f) as [v|] eqn:Hv; [|done]. cbn.
  apply collect_docs_lookup_elem in Hd.
  pose proof (proj1 (Forall_forall _ _) Hall _ Hd v) as Hnn. apply Hnn. cbn.
  destruct Hf as [-> | ->]; auto.
Qed.

(** When no delivered snapshot carries a negative count of likes or
    dislikes, whatever its documents hold in other fields, no token of the
    page ever has a negative count of likes or dislikes. *)
Theorem counts_never_negative (es : list Event) :
  (∀ docs, Snapshot docs ∈ es → counts_nonneg docs) →
  ∀ t, t ∈ tokens (run init es) → 0 <= likes t ∧ 0 <= dislikes t.
Proof.
  intros Hall t Ht.
  destruct (proj2 (run_joined es))
    as [Hnil|(es1 & docs & es2 & i & o & es3 & Hes & Heq)].
  - rewrite Hnil in Ht. by apply elem_of_nil in Ht.
  - rewrite Heq in Ht. apply combinedTokens_counts in Ht as [-> ->].
    assert (counts_nonneg docs) as Hdocs.
    { apply Hall. rewrite Hes. apply elem_of_app. right. apply list_elem_of_here. }
    split; apply opt_chain_nonneg; auto.
Qed.

Lemma counts_never_negative_witness :
  0 <= likes (mkToken token_A 2 0) ∧ 0 <= dislikes (mkToken token_A 2 0).
Proof.
  apply (counts_never_negative
           [Snapshot [("A", {["likes" := 2; "note" := -5]})];
            FetchSettled 0 catalog_A]).
  - intros docs Hin. apply list_elem_of_In in Hin. cbn in Hin.
    destruct Hin as [Hin|[Hin|[]]]; [|discriminate].
    injection Hin as <-. apply Forall_singleton. cbn.
    intros v [Hv|Hv]; vm_compute in Hv; [|discriminate].
    injection Hv as <-. lia.
  - apply list_elem_of_here.
Defined.

(** ** More on the derived list *)

Lemma string_app_assoc (a b c : string) : (a +:+ b) +:+ c = a +:+ b +:+ c.
Proof.
  induction a as [|x a IH]; [done|].
  change (String x ((a +:+ b) +:+ c) = String x (a +:+ b +:+ c)). by rewrite IH.
Qed.

Lemma string_app_empty_r (a : string) : a +:+ "" = a.
Proof.
  induction a as [|x a IH]; [done|].
  change (String x (a +:+ "") = String x a). by rewrite IH.
Qed.

Lemma substring_of_refl s : substring_of s s.
Proof. exists "", "". by rewrite string_app_empty_r. Qed.

Lemma substring_of_trans a b c :
  substring_of a b → substring_of b c → substring_of a c.
Proof.
  intros (p1 & q1 & ->) (p2 & q2 & ->).
  exists (p2 +:+ p1), (q1 +:+ q2). by rewrite !string_app_assoc.
Qed.

Lemma filter_sublist {A} (f : A → bool) l : List.filter f l `sublist_of` l.
Proof.
  induction l as [|x l IH]; [constructor|]. cbn.
  destruct (f x); by constructor.
Qed.

Lemma filter_all {A} (f : A → bool) l :
  (∀ x, x ∈ l → f x = true) → List.filter f l = l.
Proof.
  induction l as [|x l IH]; intros Hall; [done|]. cbn.
  rewrite (Hall x) by apply list_elem_of_here. f_equal.
  apply IH. intros y Hy. apply Hall. by apply list_elem_of_further.
Qed.

Lemma sort_sorted_id l : StronglySorted likes_ge l → sort by_likes l = l.
Proof. intros Hs. symmetry. by apply sort_canonical. Qed.

Section DerivedMore.

Variable toLowerCase : string → string.

Lemma derived_elem tokens s e :
  e ∈ filteredAndSortedTokens toLowerCase tokens s ↔
  e ∈ tokens ∧ matches toLowerCase s e = true.
Proof.
  unfold filteredAndSortedTokens.
  by rewrite sort_perm, !list_elem_of_In, filter_In.
Qed.

(** The derived list holds only tokens of the page and none more often
    than the page has it: searching and sorting neither invent nor repeat a
    row. *)
Theorem derived_within_tokens (tokens : list Token) (s : string) :
  filteredAndSortedTokens toLowerCase tokens s ⊆+ tokens.
Proof.
  unfold filteredAndSortedTokens. rewrite sort_perm.
  apply sublist_submseteq, filter_sublist.
Qed.

(** The first row is a most liked match: no token that matches the search
    term has more likes than the head of the derived list. *)
Theorem derived_head_most_liked (tokens : list Token) (s : string)
    (first : Token) (rest : list Token) :
  filteredAndSortedTokens toLowerCase tokens s = first :: rest →
  ∀ e, e ∈ tokens → matches toLowerCase s e = true → likes e <= likes first.
Proof.
  intros Heq e He Hm.
  apply (sorted_head_max e first rest).
  - rewrite <- Heq. apply sort_sorted.
  - rewrite <- Heq. by apply derived_elem.
Qed.

(** Deriving again from the derived list, with the same search term,
    changes nothing. *)
Theorem derived_idempotent (tokens : list Token) (s : string) :
  filteredAndSortedTokens toLowerCase
    (filteredAndSortedTokens toLowerCase tokens s) s =
  filteredAndSortedTokens toLowerCase tokens s.
Proof.
  unfold filteredAndSortedTokens at 1.
  rewrite filter_all by (intros e He; by apply derived_elem in He as [_ ?]).
  apply sort_sorted_id, sort_sorted.
Qed.

(** A longer search term narrows the list: when the lower-cased term [s]
    occurs in the lower-cased term [s'], every row shown for [s'] is also
    shown for [s]. *)
Theorem search_refinement_narrows (tokens : list Token) (s s' : string) :
  substring_of (toLowerCase s) (toLowerCase s') →
  ∀ e, e ∈ filteredAndSortedTokens toLowerCase tokens s' →
       e ∈ filteredAndSortedTokens toLowerCase tokens s.
Proof.
  intros Hsub e [He Hm]%derived_elem. apply derived_elem. split; [done|].
  apply matches_spec. apply matches_spec in Hm as [Hm|Hm]; [left|right];
    by eapply substring_of_trans.
Qed.

(** Typing a token's whole name, or its whole address, always finds it. *)
Theorem search_own_name_finds (tokens : list Token) (e : Token) :
  e ∈ tokens →
  e ∈ filteredAndSortedTokens toLowerCase tokens (token_name e) ∧
  e ∈ filteredAndSortedTokens toLowerCase tokens (token_address e).
Proof.
  intros He. split; apply derived_elem; (split; [done|]); apply matches_spec.
  - left. apply substring_of_refl.
  - right. apply substring_of_refl.
Qed.

(** Distinct addresses give distinct row keys: when no two tokens of the
    page share an address, no two rows of the table share a key. *)
Theorem row_keys_distinct (w : World) :
  NoDup (map token_address (tokens w)) →
  NoDup (page_rows (render toLowerCase w)).*1.
Proof.
  intros Hnd. unfold render. destruct (isLoading w); [constructor|].
  cbn [page_rows]. rewrite <- list_fmap_compose.
  change (NoDup (map token_address (view toLowerCase w))).
  unfold view, filteredAndSortedTokens. rewrite sort_perm.
  apply (sublist_NoDup _ (map token_address (tokens w)) Hnd).
  apply (fmap_sublist token_address), filter_sublist.
Qed.

End DerivedMore.

Lemma derived_head_most_liked_witness :
  likes (entry "a" "first" 3) <= likes (entry "c" "third" 5).
Proof.
  apply (derived_head_most_liked ascii_toLowerCase ranked_entries ""
           (entry "c" "third" 5)
           [entry "a" "first" 3; entry "b" "second" 3; entry "d" "fourth" 1]);
    [reflexivity|apply list_elem_of_here|reflexivity].
Defined.

Lemma search_refinement_narrows_witness :
  entry "A1" "Foo Token" 0 ∈
  filteredAndSortedTokens ascii_toLowerCase search_entries "fo".
Proof.
  apply (search_refinement_narrows ascii_toLowerCase search_entries "fo" "Foo T").
  - by exists "", "o t".
  - apply list_elem_of_here.
Defined.

Lemma search_own_name_finds_witness :
  entry "B2" "Bar" 0 ∈ filteredAndSortedTokens ascii_toLowerCase search_entries "Bar" ∧
  entry "B2" "Bar" 0 ∈ filteredAndSortedTokens ascii_toLowerCase search_entries "B2".
Proof.
  apply (search_own_name_finds ascii_toLowerCase search_entries (entry "B2" "Bar" 0)).
  apply list_elem_of_further, list_elem_of_here.
Defined.

Lemma row_keys_distinct_witness :
  NoDup (page_rows (render ascii_toLowerCase
                      (run init [Snapshot []; FetchSettled 0 catalog_AB]))).*1 ∧
  length (page_rows (render ascii_toLowerCase
                       (run init [Snapshot []; FetchSettled 0 catalog_AB])))
    = 2%nat.
Proof.
  split; [|reflexivity].
  apply row_keys_distinct. cbn.
  apply NoDup_cons. split; [|apply NoDup_singleton].
  intros Hin. apply list_elem_of_singleton in Hin. discriminate.
Defined.

(** ** What is rendered *)

Section Rendering.

Variable toLowerCase : string → string.

Lemma view_empty w :
  view toLowerCase w = [] ↔
  ∀ e, e ∈ tokens w → matches toLowerCase (searchTerm w) e = false.
Proof.
  unfold view. split.
  - intros Hnil e He. destruct (matches _ _ e) eqn:Hm; [|done].
    assert (e ∈ filteredAndSortedTokens toLowerCase (tokens w) (searchTerm w)) as Hin
      by by apply derived_elem.
    rewrite Hnil in Hin. by apply elem_of_nil in Hin.
  - intros Hall.
    destruct (filteredAndSortedTokens _ _ _) as [|e l] eqn:Heq; [done|].
    assert (e ∈ filteredAndSortedTokens toLowerCase (tokens w) (searchTerm w)) as Hin
      by (rewrite Heq; apply list_elem_of_here).
    apply derived_elem in Hin as [He Hm]. by rewrite (Hall e He) in Hm.
Qed.

(** While loading, the page shows neither rows nor the notice; otherwise
    the notice that nothing was found is shown exactly when the table has
    no row, and that is exactly when no token of the page matches the
    search term. *)
Theorem nothing_found_notice (w : World) :
  (isLoading w = true → render toLowerCase w = LoadingNotice) ∧
  (∀ rows shown_notice, render toLowerCase w = Table rows shown_notice →
     isLoading w = false ∧
     (shown_notice = true ↔ rows = []) ∧
     (shown_notice = true ↔
      ∀ e, e ∈ tokens w → matches toLowerCase (searchTerm w) e = false)).
Proof.
  unfold render. split; [by intros ->|].
  intros rows b. destruct (isLoading w); [done|].
  intros Heq. injection Heq as <- <-. split; [done|].
  rewrite <- view_empty. destruct (view toLowerCase w); cbn; by split.
Qed.

(** Every row of the table stands for a token of the page, carries that
    token's address as its key and its counts, and its two buttons send one
    increment of likes, respectively dislikes, for exactly that address. *)
Theorem buttons_vote_for_their_row (w : World) (k : string) (row : Row) :
  (k, row) ∈ page_rows (render toLowerCase w) →
  ∃ token, token ∈ tokens w ∧ k = token_address token ∧
    row_likes row = likes token ∧ row_dislikes row = dislikes token ∧
    outbox (exec (row_onLike row) w) =
      outbox w ++ [mkSetDoc "coins" k [("likes", increment 1)] true] ∧
    outbox (exec (row_onDislike row) w) =
      outbox w ++ [mkSetDoc "coins" k [("dislikes", increment 1)] true].
Proof.
  unfold render. destruct (isLoading w); [by intros ?%elem_of_nil|].
  cbn [page_rows]. intros (token & Heq & Hin)%list_elem_of_fmap.
  injection Heq as -> ->. exists token.
  apply derived_elem in Hin as [Hin _]. by repeat split.
Qed.

End Rendering.

Lemma nothing_found_notice_witness :
  render ascii_toLowerCase init = LoadingNotice ∧
  (∀ e, e ∈ tokens (run init [Snapshot []; FetchSettled 0 catalog_A; Search "zzz"]) →
        matches ascii_toLowerCase "zzz" e = false).
Proof.
  split.
  - apply (nothing_found_notice ascii_toLowerCase init). reflexivity.
  - destruct (nothing_found_notice ascii_toLowerCase
                (run init [Snapshot []; FetchSettled 0 catalog_A; Search "zzz"]))
      as [_ H].
    destruct (H [] true eq_refl) as (_ & _ & Hm). by apply Hm.
Defined.

Lemma buttons_vote_for_their_row_witness :
  ∃ token, token ∈ tokens (run init [Snapshot []; FetchSettled 0 catalog_A]) ∧
    "A" = token_address token.
Proof.
  destruct (buttons_vote_for_their_row ascii_toLowerCase
              (run init [Snapshot []; FetchSettled 0 catalog_A]) "A"
              (TokenRow (mkToken token_A 0 0) handleLike handleDislike))
    as (token & Hin & Hk & _); [apply list_elem_of_here|].
  by exists token.
Defined.

(** ** The shortened address *)

Lemma string_length_app (a b : string) :
  String.length (a +:+ b) = (String.length a + String.length b)%nat.
Proof.
  induction a as [|x a IH]; [done|].
  change (S (String.length (a +:+ b)) = S (String.length a + String.length b)).
  by rewrite IH.
Qed.

Lemma string_take_drop n s : string_take n s +:+ string_drop n s = s.
Proof.
  revert s. induction n as [|n IH]; intros [|c s]; try done.
  change (String c (string_take n s +:+ string_drop n s) = String c s).
  by rewrite IH.
Qed.

Lemma string_take_length n s :
  String.length (string_take n s) = (n `min` String.length s)%nat.
Proof.
  revert s. induction n as [|n IH]; intros [|c s]; try done.
  cbn. by rewrite IH.
Qed.

Lemma string_drop_length n s :
  String.length (string_drop n s) = (String.length s - n)%nat.
Proof.
  revert s. induction n as [|n IH]; intros [|c s]; try done.
  cbn. by rewrite IH.
Qed.

Lemma string_take_all n s : (String.length s ≤ n)%nat → string_take n s = s.
Proof.
  revert s. induction n as [|n IH]; intros [|c s] Hle; try done.
  - cbn in Hle. lia.
  - cbn in *. rewrite IH; [done|lia].
Qed.

Lemma string_drop_none s : string_drop 0 s = s.
Proof. by destruct s. Qed.

Lemma slice_head a : slice a 0 (Some 4) = string_take 4 a.
Proof.
  unfold slice, slice_index. cbn [Z.ltb Z.compare].
  destruct (Z.leb_spec (Z.min 4 (Z.of_nat (String.length a)))
                       (Z.min 0 (Z.of_nat (String.length a)))) as [Hle|Hgt].
  - destruct a as [|c a]; [done|]. cbn [String.length] in Hle. lia.
  - replace (Z.to_nat (Z.min 0 (Z.of_nat (String.length a)))) with 0%nat by lia.
    rewrite string_drop_none.
    destruct (decide (String.length a ≤ 4)%nat) as [Hs|Hl].
    + rewrite !string_take_all; [done|lia|lia].
    + f_equal. lia.
Qed.

Lemma slice_tail a :
  slice a (-4) None = string_drop (String.length a - 4) a.
Proof.
  unfold slice, slice_index. cbn [Z.ltb Z.compare].
  destruct (Z.leb_spec (Z.of_nat (String.length a))
                       (Z.max (Z.of_nat (String.length a) + -4) 0)) as [Hle|Hgt].
  - destruct a as [|c a]; [done|]. cbn [String.length] in Hle. lia.
  - replace (Z.to_nat (Z.max (Z.of_nat (String.length a) + -4) 0))
      with (String.length a - 4)%nat by lia.
    apply string_take_all. rewrite string_drop_length. lia.
Qed.

(** The link text of a row is three code units longer than twice the
    smaller of 4 and the length of the address; an address of at most four
    code units is shown whole on both sides of the dots, and one of at
    least eight is shown as its first four and its last four code units,
    the middle left out. *)
Theorem short_address_shape (a : string) :
  String.length (short_address a) = (3 + 2 * (4 `min` String.length a))%nat ∧
  ((String.length a ≤ 4)%nat → short_address a = a +:+ "..." +:+ a) ∧
  ((8 ≤ String.length a)%nat →
     ∃ first middle last,
       a = first +:+ middle +:+ last ∧
       String.length first = 4%nat ∧ String.length last = 4%nat ∧
       short_address a = first +:+ "..." +:+ last).
Proof.
  unfold short_address. rewrite slice_head, slice_tail. split; [|split].
  - rewrite !string_length_app, string_take_length, string_drop_length.
    cbn [String.length]. lia.
  - intros Hle. rewrite string_take_all by lia.
    replace (String.length a - 4)%nat with 0%nat by lia.
    by rewrite string_drop_none.
  - intros Hge.
    exists (string_take 4 a),
           (string_take (String.length a - 8) (string_drop 4 a)),
           (string_drop (String.length a - 4) a).
    split; [|split; [|split]].
    + rewrite <- (string_take_drop 4 a) at 1. f_equal.
      rewrite <- (string_take_drop (String.length a - 8) (string_drop 4 a)) at 1.
      f_equal. clear -Hge.
      assert (∀ n m s, string_drop n (string_drop m s) = string_drop (m + n) s) as Hdd.
      { intros n m. induction m as [|m IH]; intros s.
        - by rewrite string_drop_none.
        - destruct s as [|c s]; [by destruct n|]. apply IH. }
      rewrite Hdd. f_equal. lia.
    + rewrite string_take_length. lia.
    + rewrite string_drop_length. lia.
    + done.
Qed.

Lemma short_address_shape_witness :
  short_address "abc" = "abc...abc" ∧
  ∃ first middle last,
    "So11111111111111111111111111111111111111112" = first +:+ middle +:+ last ∧
    String.length first = 4%nat ∧ String.length last = 4%nat ∧
    short_address "So11111111111111111111111111111111111111112" =
    first +:+ "..." +:+ last.
Proof.
  split.
  - destruct (short_address_shape "abc") as (_ & H & _). apply H. cbn. lia.
  - destruct (short_address_shape "So11111111111111111111111111111111111111112")
      as (_ & _ & H).
    apply H. cbn. lia.
Defined.

Example short_address_mint :
  short_address "So11111111111111111111111111111111111111112" = "So11...1112".
Proof. reflexivity. Qed.

(** ** The logo *)

Lemma logo_error_run src alt es :
  logo_error (foldl logo_step (logo_mount src alt) es) = true ↔ LoadFailed ∈ es.
Proof.
  induction es as [|e es IH] using rev_ind.
  - cbn. split; [done|by intros ?%elem_of_nil].
  - rewrite foldl_app, elem_of_app, list_elem_of_singleton. cbn [foldl].
    destruct e as [|src' alt']; cbn.
    + unfold logo_render, TokenLogo.
      destruct (logo_error (foldl logo_step (logo_mount src alt) es)) eqn:He;
        cbn; [|by split; auto].
      rewrite He. split; auto.
    + rewrite IH. split; [auto|]. by intros [?|?].
Qed.

(** Once its image has failed to load, a logo shows the placeholder, with
    no error handler, whatever source it is rendered with afterwards; a
    logo whose image never failed shows the source it was last given. *)
Theorem logo_failure_is_kept (src alt : string) (es : list LogoEvent) :
  let st := foldl logo_step (logo_mount src alt) es in
  (LoadFailed ∈ es → logo_render st = mkImg placeholder (logo_alt st) false) ∧
  (LoadFailed ∉ es → logo_render st = mkImg (logo_src st) (logo_alt st) true).
Proof.
  cbn zeta. pose proof (logo_error_run src alt es) as Herr.
  unfold logo_render, TokenLogo. split.
  - intros Hin. by rewrite (proj2 Herr Hin).
  - intros Hnin.
    destruct (logo_error (foldl logo_step (logo_mount src alt) es)); [|done].
    exfalso. by apply Hnin, Herr.
Qed.

Lemma logo_failure_is_kept_witness :
  logo_render (foldl logo_step (logo_mount "a.png" "Foo logo")
                 [LoadFailed; Rerender "b.png" "Foo logo"]) =
  mkImg placeholder "Foo logo" false ∧
  logo_render (foldl logo_step (logo_mount "a.png" "Foo logo")
                 [Rerender "b.png" "Foo logo"]) =
  mkImg "b.png" "Foo logo" true.
Proof.
  split.
  - apply (logo_failure_is_kept "a.png" "Foo logo"
             [LoadFailed; Rerender "b.png" "Foo logo"]).
    apply list_elem_of_here.
  - apply (logo_failure_is_kept "a.png" "Foo logo" [Rerender "b.png" "Foo logo"]).
    intros Hin. apply list_elem_of_In in Hin. cbn in Hin.
    destruct Hin as [Hin|[]]. discriminate.
Defined.

(** ** Waiting and typing *)

(** As long as no fetch settles and the subscription does not fail, the
    page stays in the loading state with an empty token list, however many
    snapshots are delivered and whatever is clicked or typed: a fetch that
    never settles keeps the page loading. *)
Theorem loading_until_settled (es : list Event) :
  forallb (λ e, negb (is_settled e) && negb (is_subscription_error e)) es = true →
  isLoading (run init es) = true ∧ tokens (run init es) = [].
Proof.
  induction es as [|e es IH] using rev_ind; [done|].
  rewrite forallb_app. cbn. rewrite andb_true_r.
  intros [Hes [Hs He]%andb_true_iff]%andb_true_iff.
  destruct (IH Hes) as [Hl Ht]. rewrite run_snoc. split.
  - rewrite step_loading_kept; [done|apply run_known| |].
    + by destruct (is_settled e).
    + intros ->. discriminate.
  - rewrite step_tokens; [done|apply run_known|]. by destruct (is_settled e).
Qed.

Lemma loading_until_settled_witness :
  isLoading (run init [Snapshot []; Snapshot []; Like "A"; Search "foo"]) = true ∧
  tokens (run init [Snapshot []; Snapshot []; Like "A"; Search "foo"]) = [].
Proof. apply loading_until_settled. reflexivity. Defined.

(** The search term of the page is the term typed last, or empty when
    nothing was typed: snapshots, joins, votes and failures leave it
    alone. *)
Theorem search_term_is_last_typed (es : list Event) :
  searchTerm (run init es) = default "" (last (omap search_of es)).
Proof.
  induction es as [|e es IH] using rev_ind; [done|].
  rewrite run_snoc, omap_app.
  pose proof (step_cases _ e (run_known es)) as Hc.
  destruct e as [docs| |i o|a|a|i r|s]; cbn [omap search_of];
    rewrite ?app_nil_r; try exact IH.
  - change (searchTerm (step (run init es) (FetchSettled i o)) =
            default "" (last (omap search_of es))).
    by destruct Hc as [->|[docs ->]].
  - change (searchTerm (step (run init es) (WriteSettled i r)) =
            default "" (last (omap search_of es))).
    by destruct Hc as [->| ->].
  - cbn. by rewrite last_snoc.
Qed.

Lemma includes_length t s :
  includes t s = true → (String.length s ≤ String.length t)%nat.
Proof.
  intros (pre & post & ->)%includes_spec. rewrite !string_length_app. lia.
Qed.

(** A search term whose lower-casing is longer than the lower-cased name
    and longer than the lower-cased address of a token does not show that
    token. *)
Theorem search_too_long_hides (toLowerCase : string → string)
    (tokens : list Token) (s : string) (e : Token) :
  (String.length (toLowerCase (token_name e)) <
   String.length (toLowerCase s))%nat →
  (String.length (toLowerCase (token_address e)) <
   String.length (toLowerCase s))%nat →
  e ∉ filteredAndSortedTokens toLowerCase tokens s.
Proof.
  intros Hn Ha [_ Hm]%derived_elem. unfold matches in Hm.
  apply orb_true_iff in Hm as [Hm|Hm]; apply includes_length in Hm; lia.
Qed.

Lemma search_too_long_hides_witness :
  entry "B2" "Bar" 0 ∉
  filteredAndSortedTokens ascii_toLowerCase search_entries "Barr".
Proof.
  apply search_too_long_hides; cbn; lia.
Defined.
